(** * Outline extraction and relevance ranking: a shallow embedding

    This development embeds the core of [r1a_outline_extractor.py] and
    [r1b_document_intelligence.py] and proves properties of it.

    Conventions.
    - A Python [str] is a list of Unicode code points ([char := N]).
    - Font sizes and relevance scores are Python floats.  They are only ever
      compared with each other and with products by a constant, so they are
      embedded as rationals ([Q]) with exact arithmetic.  The one place where
      a float is truncated to an integer, [int(num_pages * 0.6)], is
      embedded bit-exactly with the binary64 operations of [SpecFloat].
    - A [dict] whose iteration order is observable is an insertion-ordered
      association list; the dictionaries of the noise filter, whose order is
      not observable, are [gmap]s and its sets are [gset]s.
    - External collaborators (language identification, word splitting, the
      text embedder, the PDF readers) are Section variables. *)

From Stdlib Require Import ZArith NArith QArith Lqa List Ascii String.
From Stdlib Require Import Floats.SpecFloat.
From stdpp Require Import gmap list sorting.

Local Open Scope nat_scope.

(** ** Python strings *)

Module Py.

Definition char := N.
Abbreviation str := (list N).

(** An ASCII literal as a Python string. *)
Definition lit (s : string) : str :=
  map N_of_ascii (list_ascii_of_string s).

(** [str.isspace] on one code point: the Unicode white space characters,
    which are also what [\s] matches in a [str] pattern. *)
Definition is_space (c : char) : bool :=
  ((9 <=? c) && (c <=? 13) || (28 <=? c) && (c <=? 32)
   || (c =? 133) || (c =? 160) || (c =? 5760)
   || (8192 <=? c) && (c <=? 8202) || (c =? 8232) || (c =? 8233)
   || (c =? 8239) || (c =? 8287) || (c =? 12288))%N.

Definition space : char := 32%N.

Fixpoint lstrip (s : str) : str :=
  match s with
  | c :: r => if is_space c then lstrip r else s
  | [] => []
  end.

Definition rstrip (s : str) : str := rev (lstrip (rev s)).

(** [s.strip()] *)
Definition strip (s : str) : str := rstrip (lstrip s).

(** [re.sub(r'\s+', ' ', s)]: every maximal run of white space becomes one
    space. *)
Fixpoint collapse_ws (s : str) : str :=
  match s with
  | [] => []
  | c :: r =>
      if is_space c then
        match r with
        | c' :: _ => if is_space c' then collapse_ws r else space :: collapse_ws r
        | [] => [space]
        end
      else c :: collapse_ws r
  end.

(** [s[i:j]] for [0 <= i]. *)
Definition slice (i j : nat) (s : str) : str := take (j - i) (drop i s).

Fixpoint starts_with (p s : str) : bool :=
  match p, s with
  | [], _ => true
  | a :: p', b :: s' => (a =? b)%N && starts_with p' s'
  | _ :: _, [] => false
  end.

(** [s.find(sub)]: the lowest index where [sub] occurs, [None] for [-1]. *)
Fixpoint find (sub s : str) : option nat :=
  if starts_with sub s then Some 0
  else match s with
       | [] => None
       | _ :: r => S <$> find sub r
       end.

(** [sub in s] *)
Definition contains (sub s : str) : bool :=
  match find sub s with Some _ => true | None => false end.

Definition is_ascii_upper (c : char) : bool := ((65 <=? c) && (c <=? 90))%N.
Definition is_ascii_lower (c : char) : bool := ((97 <=? c) && (c <=? 122))%N.

(** Case is modelled on the ASCII letters; every other code point is
    uncased, which is exact for the Devanagari block. *)
Definition lower_char (c : char) : char :=
  if is_ascii_upper c then (c + 32)%N else c.

(** [s.lower()] *)
Definition lower (s : str) : str := map lower_char s.

(** [s.isupper()]: no cased character is lower case and there is at least
    one cased character. *)
Definition isupper (s : str) : bool :=
  forallb (fun c => negb (is_ascii_lower c)) s && existsb is_ascii_upper s.

(** [c.isalpha()] on the ASCII letters and the Devanagari letters. *)
Definition isalpha (c : char) : bool :=
  (is_ascii_upper c || is_ascii_lower c
   || (2308 <=? c) && (c <=? 2361) || (c =? 2365) || (c =? 2384)
   || (2392 <=? c) && (c <=? 2401) || (2417 <=? c) && (c <=? 2431))%N.

(** [\d] on the ASCII and the Devanagari digits. *)
Definition isdigit (c : char) : bool :=
  ((48 <=? c) && (c <=? 57) || (2406 <=? c) && (c <=? 2415))%N.

(** [sep.join(parts)] *)
Fixpoint join (sep : str) (parts : list str) : str :=
  match parts with
  | [] => []
  | [p] => p
  | p :: ps => p ++ sep ++ join sep ps
  end.

(** [int(n * 0.6)] for a Python [int] [n >= 0]: the integer is converted to
    binary64 (exactly, below 2^53), multiplied by the double nearest to 0.6
    with rounding to nearest even, and the product is truncated. *)
Definition b64_mul : spec_float -> spec_float -> spec_float := SFmul 53 1024.

Definition b64_of_nat (n : nat) : spec_float :=
  match Z.of_nat n with
  | Zpos p => S754_finite false p 0
  | _ => S754_zero false
  end.

(** The double written [0.6]: 0x13333333333333 * 2^-53. *)
Definition b64_0_6 : spec_float := S754_finite false 5404319552844595 (-53).

Definition b64_trunc (x : spec_float) : Z :=
  match x with
  | S754_finite s m e =>
      let a := match e with
               | Zneg k => Z.shiftr (Zpos m) (Zpos k)
               | _ => Z.shiftl (Zpos m) e
               end in
      if s then (- a)%Z else a
  | _ => 0%Z
  end.

Definition int_mul_0_6 (n : nat) : nat :=
  Z.to_nat (b64_trunc (b64_mul (b64_of_nat n) b64_0_6)).

(** Does the truncated binary64 product agree with the exact
    [floor (6 p / 10)] for the [fuel] integers from [p] on? *)
Fixpoint agrees_from (fuel : nat) (p : positive) : bool :=
  match fuel with
  | O => true
  | S k =>
      (b64_trunc (b64_mul (S754_finite false p 0) b64_0_6) =? Zpos p * 6 / 10)%Z
      && agrees_from k (Pos.succ p)
  end.

End Py.

Import Py.

(** ** The noise filter ([detect_junk_candidates]) *)

(** [clean_text]: collapse white space, then trim. *)
Definition clean_text (text : str) : str := strip (collapse_ws text).

(** A collected span ([span_info]); [is_heading_candidate], always [False]
    and never read, is left out. *)
Record SpanInfo := {
  span_text : str;
  span_size : Q;
  span_font : str;
  span_is_bold : bool;
  span_origin : Q * Q;
  span_bbox : Q * Q * Q * Q;
  span_page : positive
}.

(** [page_texts.setdefault(page, []).append(clean_text(span['text']))] *)
Definition group_by_page (all_text_spans : list SpanInfo)
  : gmap positive (list str) :=
  foldl (fun pt span =>
           <[span_page span :=
               default [] (pt !! span_page span) ++ [clean_text (span_text span)]]> pt)
        ∅ all_text_spans.

(** [for t in set(texts): freq[t] += 1] *)
Definition count_page (texts : list str) (freq : gmap str nat) : gmap str nat :=
  set_fold (fun t fr => <[t := S (default 0 (fr !! t))]> fr) freq
           (list_to_set texts : gset str).

Definition page_frequencies (page_texts : gmap positive (list str))
  : gmap str nat :=
  map_fold (fun _ texts fr => count_page texts fr) ∅ page_texts.

(** [max(2, int(num_pages * 0.6))] *)
Definition threshold (num_pages : nat) : nat := Nat.max 2 (int_mul_0_6 num_pages).

(** The threshold in the words of the specification:
    [max(2, ceil(0.6 * num_pages))]. *)
Definition spec_threshold (num_pages : nat) : nat :=
  Nat.max 2 ((num_pages * 6 + 9) / 10).

(** [c >= threshold and len(t) > 0 and len(t) < 80] *)
Definition is_junk (threshold : nat) (tc : str * nat) : Prop :=
  threshold ≤ tc.2 ∧ 0 < length tc.1 ∧ length tc.1 < 80.

#[global] Instance is_junk_dec thr tc : Decision (is_junk thr tc).
Proof. unfold is_junk. apply _. Defined.

Definition detect_junk_candidates (all_text_spans : list SpanInfo)
    (num_pages : nat) : gset str :=
  let freq := page_frequencies (group_by_page all_text_spans) in
  list_to_set (fst <$> filter (is_junk (threshold num_pages)) (map_to_list freq)).

(** The number of pages on which the cleaned string [t] occurs: the size of
    the set of page numbers of the spans whose cleaned text is [t]. *)
Definition pages_containing (t : str) (all_text_spans : list SpanInfo) : nat :=
  size (list_to_set
          (span_page <$> filter (fun s => clean_text (span_text s) = t) all_text_spans)
        : gset positive).

(** ** Ordered dictionaries and stable sorting *)

(** A Python [dict] in insertion order.  [d[k] = v] keeps the position of a
    key that is already present. *)
Abbreviation dict K V := (list (K * V)).

Fixpoint dict_set {K V} `{EqDecision K} (k : K) (v : V) (d : dict K V) : dict K V :=
  match d with
  | [] => [(k, v)]
  | (k', v') :: r => if decide (k = k') then (k, v) :: r else (k', v') :: dict_set k v r
  end.

Definition dict_keys {K V} (d : dict K V) : list K := map fst d.
Definition dict_values {K V} (d : dict K V) : list V := map snd d.

(** [sorted] is stable: [x], which comes before every element of [l] in the
    input, is put in front of the first [y] with [before x y]. *)
Fixpoint insert_by {A} (before : A -> A -> bool) (x : A) (l : list A) : list A :=
  match l with
  | [] => [x]
  | y :: r => if before x y then x :: y :: r else y :: insert_by before x r
  end.

Fixpoint sorted_by {A} (before : A -> A -> bool) (l : list A) : list A :=
  match l with
  | [] => []
  | x :: r => insert_by before x (sorted_by before r)
  end.

(** [sorted(l)] on floats. *)
Definition sorted_asc (l : list Q) : list Q := sorted_by Qle_bool l.

(** [sorted(l, key=key, reverse=True)] *)
Definition sorted_desc_by {A} (key : A -> Q) (l : list A) : list A :=
  sorted_by (fun x y => Qle_bool (key y) (key x)) l.

(** The elements of a [set] of floats, one representative for each value. *)
Fixpoint distinct (l : list Q) : list Q :=
  match l with
  | [] => []
  | x :: r => if existsb (Qeq_bool x) r then distinct r else x :: distinct r
  end.

(** ** The outline extractor ([r1a_outline_extractor.py]) *)

Inductive lang := en | hi | mr.

#[global] Instance lang_eq_dec : EqDecision lang.
Proof. solve_decision. Defined.

Inductive level := H1 | H2 | H3.

#[global] Instance level_eq_dec : EqDecision level.
Proof. solve_decision. Defined.

(** What the layout provider reports for one span, block and page. *)
Record RawSpan := {
  raw_text : str;
  raw_size : Q;
  raw_font : str;
  raw_origin : Q * Q;
  raw_bbox : Q * Q * Q * Q
}.

Record Block := {
  block_type : Z;
  block_lines : list (list RawSpan)
}.

(** One page of an opened document: its layout blocks ([None] when
    [page.get_text("dict")] raises) and its raw text. *)
Record Page := {
  get_blocks : option (list Block);
  get_text : str
}.

Abbreviation Document := (list Page).

(** A table as pdfplumber returns it: rows of cells, a cell may be [None]. *)
Abbreviation RawTable := (list (list (option str))).

Record Table := {
  table_page : nat;
  table_headers : dict lang (list str);
  table_data : list (list (option str))
}.

(** What the two PDF readers make of one path.  [fitz_open] is [None] when
    [fitz.open] raises; [plumber_open] is [None] when [pdfplumber.open]
    raises, and a page of it is [None] when [extract_tables] raises there;
    [plumber_text i] is the text pdfplumber extracts from page index [i],
    [None] when that raises. *)
Record PdfFile := {
  file_name : str;
  fitz_open : option Document;
  plumber_open : option (list (option (list RawTable)));
  plumber_text : nat -> option str
}.

Record Candidate := {
  cand_text : dict lang str;
  cand_page : positive;
  cand_size : Q
}.

Record Leveled := {
  lv_level : level;
  lv_text : dict lang str;
  lv_page : positive;
  lv_size : Q
}.

Record HeadingEntry := {
  entry_level : level;
  entry_text : dict lang str;
  entry_page : positive
}.

Record Outline := {
  title : dict lang str;
  outline : list HeadingEntry;
  tables : list Table
}.

Definition empty_outline : Outline :=
  {| title := []; outline := []; tables := [] |}.

#[global] Instance HeadingEntry_eq_dec : EqDecision HeadingEntry.
Proof. solve_decision. Defined.

Definition is_devanagari (c : char) : bool := ((2304 <=? c) && (c <=? 2431))%N.

Definition text_has_invalid_devanagari (text : str) : bool :=
  negb (existsb is_devanagari text).

(** ["bold" in font.lower() or "bld" in font.lower()] *)
Definition is_bold (font : str) : bool :=
  contains (lit "bold") (lower font) || contains (lit "bld") (lower font).

Definition is_all_caps (text : str) : bool :=
  isupper text && (2 <? length text) && existsb isalpha text.

(** The character class of the list-marker pattern: bullet glyphs, hyphen,
    asterisk, digit. *)
Definition is_list_marker (c : char) : bool :=
  ((c =? 8226) || (c =? 8227) || (c =? 9702) || (c =? 8259) || (c =? 8729)
   || (c =? 45) || (c =? 42))%N || isdigit c.

(** [re.match(r'^[...]', s)] *)
Definition starts_with_list_marker (s : str) : bool :=
  match s with
  | c :: _ => is_list_marker c
  | [] => false
  end.

Definition in_body_band (sz : Q) : bool := Qle_bool 8%Q sz && Qle_bool sz 14%Q.

(** [a > b] on floats. *)
Definition Qgt_bool (a b : Q) : bool := negb (Qle_bool a b).

(** [sorted(body_font_sizes)[len(body_font_sizes) // 2]], or 12. *)
Definition median_of (body_font_sizes : list Q) : Q :=
  match body_font_sizes with
  | [] => 12%Q
  | _ :: _ => nth (length body_font_sizes / 2) (sorted_asc body_font_sizes) 12%Q
  end.

(** The spans that the collection loop keeps for page index [page_num]. *)
Definition collect_page (page_num : nat) (blocks : list Block) : list SpanInfo :=
  flat_map (fun b =>
    if (block_type b =? 0)%Z then
      flat_map (fun line =>
        flat_map (fun span =>
          let text := clean_text (raw_text span) in
          match text with
          | [] => []
          | _ :: _ =>
              [ {| span_text := text; span_size := raw_size span;
                   span_font := raw_font span;
                   span_is_bold := is_bold (raw_font span);
                   span_origin := raw_origin span; span_bbox := raw_bbox span;
                   span_page := Pos.of_succ_nat page_num |} ]
          end) line) (block_lines b)
    else []) blocks.

Definition collect_spans (document : Document) : list SpanInfo :=
  concat (imap (fun page_num page =>
                  match get_blocks page with
                  | Some blocks => collect_page page_num blocks
                  | None => []
                  end) document).

(** [page_spans.setdefault(page_num + 1, []).append(span_info)] *)
Definition group_spans (all_text_spans : list SpanInfo)
  : gmap positive (list SpanInfo) :=
  foldl (fun ps span =>
           <[span_page span := default [] (ps !! span_page span) ++ [span]]> ps)
        ∅ all_text_spans.

Definition body_font_sizes (all_text_spans : list SpanInfo) : list Q :=
  List.filter in_body_band (map span_size all_text_spans).

Definition median_body_font_size (all_text_spans : list SpanInfo) : Q :=
  median_of (body_font_sizes all_text_spans).

(** The scan for the largest size on page 1: the state is
    [(largest_font_size, title_candidates)]. *)
Definition title_step (st : Q * list str) (span : SpanInfo) : Q * list str :=
  if Qgt_bool (span_size span) st.1 then (span_size span, [span_text span])
  else if Qeq_bool (span_size span) st.1 then (st.1, st.2 ++ [span_text span])
  else st.

Definition title_candidates (page_0_spans : list SpanInfo) : list str :=
  (foldl title_step (0%Q, []) page_0_spans).2.

(** The three size rules of the heading detector. *)
Definition size_rules (median : Q) (i : nat) (span : SpanInfo) : bool :=
  if span_is_bold span && Qgt_bool (span_size span) (median * 1.1)%Q then true
  else if Qgt_bool (span_size span) (median * 1.2)%Q && (i =? 0) then true
  else is_all_caps (span_text span) && Qle_bool median (span_size span).

(** [i + 1 < len(spans)] and the next span starts with a list marker. *)
Definition introduces_list (spans : list SpanInfo) (i : nat) : bool :=
  match spans !! (i + 1) with
  | Some next => starts_with_list_marker (strip (span_text next))
  | None => false
  end.

(** Level of a candidate of size [sz], given [sizes], the distinct candidate
    sizes in descending order.  [sizes] is never empty where this is called. *)
Definition level_of (sizes : list Q) (sz : Q) : level :=
  match sizes with
  | [] => H3
  | s0 :: rest =>
      if Qle_bool (s0 * 0.95)%Q sz then H1
      else match rest with
           | s1 :: _ => if Qle_bool (s1 * 0.95)%Q sz then H2 else H3
           | [] => H3
           end
  end.

Definition distinct_sizes_desc (heading_outline : list Candidate) : list Q :=
  sorted_desc_by (fun x => x) (distinct (map cand_size heading_outline)).

Definition assign_levels (heading_outline : list Candidate) : list Leveled :=
  let sizes := distinct_sizes_desc heading_outline in
  map (fun h => {| lv_level := level_of sizes (cand_size h); lv_text := cand_text h;
                   lv_page := cand_page h; lv_size := cand_size h |})
      heading_outline.

(** The deduplication loop: the state is [final_outline]; its entries and the
    keys in [seen] are the same triples. *)
Definition dedup_step (final_outline : list HeadingEntry) (h : Leveled)
  : list HeadingEntry :=
  let key := {| entry_level := lv_level h; entry_text := lv_text h;
                entry_page := lv_page h |} in
  if bool_decide (key ∈ final_outline) then final_outline
  else final_outline ++ [key].

Definition remove_duplicates (hs : list Leveled) : list HeadingEntry :=
  foldl dedup_step [] hs.

Section Extractor.

(** [langdetect.detect]: the code it answers, [None] when it raises. *)
Variable detect : str -> option string.

(** [wordninja.split] *)
Variable wordninja_split : str -> list str.

(** [indic_tokenize.trivial_tokenize], [None] when IndicNLP is not
    installed ([INDICNLP_AVAILABLE = False]). *)
Variable trivial_tokenize : option (str -> lang -> list str).

Definition detect_language (text : str) : lang :=
  match detect text with
  | Some code =>
      if String.eqb code "hi" then hi
      else if String.eqb code "mr" then mr
      else en
  | None => en
  end.

Definition clean_english (text : str) : str :=
  match text with
  | [] => strip text
  | _ :: _ =>
      if contains [space] text then strip text
      else strip (join [space] (wordninja_split text))
  end.

(** The three characters that the source file spells in its two Devanagari
    patterns (code points U+0440, U+0435, U+0434). *)
Definition danda : str := [1088; 1077; 1076]%N.

(** [s.replace(old, new)] for a non-empty [old]; [skip] counts the characters
    of a match that are still to be dropped. *)
Fixpoint replace_go (old new : str) (skip : nat) (s : str) : str :=
  match s with
  | [] => []
  | c :: r =>
      match skip with
      | S k => replace_go old new k r
      | O => if starts_with old s then new ++ replace_go old new (length old - 1) r
             else c :: replace_go old new 0 r
      end
  end.

Definition replace (old new s : str) : str := replace_go old new 0 s.

(** [re.sub(r'([...,.!?])', r'\1 ', s)] *)
Definition space_after_punct (s : str) : str :=
  flat_map (fun c =>
    if bool_decide (c ∈ danda) || (c =? 44)%N || (c =? 46)%N || (c =? 33)%N || (c =? 63)%N
    then [c; space] else [c]) s.

Definition clean_indic (text : str) (l : lang) : str :=
  match trivial_tokenize, l with
  | Some tokenize, hi | Some tokenize, mr =>
      strip (replace (space :: danda) danda (join [space] (tokenize text l)))
  | _, _ =>
      strip (replace [space; space] [space] (space_after_punct text))
  end.

Definition normalize (l : lang) (text : str) : str :=
  match l with
  | en => clean_english text
  | _ => clean_indic text l
  end.

(** [extract_tables] *)
Definition table_of (i : nat) (table : RawTable) : list Table :=
  match table with
  | header :: rows =>
      if 1 <? length header then
        let columns := omap (fun col =>
                         match col with
                         | Some (c :: cs) => Some (clean_text (c :: cs))
                         | _ => None
                         end) header in
        let l := detect_language (join [space] columns) in
        let columns := map (normalize l) columns in
        let data := List.filter (existsb (fun cell =>
                       match cell with Some (_ :: _) => true | _ => false end)) rows in
        match columns with
        | [] => []
        | _ :: _ => [ {| table_page := i + 1; table_headers := [(l, columns)];
                         table_data := data |} ]
        end
      else []
  | [] => []
  end.

(** The pages before the first failing one contribute their tables. *)
Fixpoint tables_from (i : nat) (pages : list (option (list RawTable))) : list Table :=
  match pages with
  | Some page_tables :: rest => flat_map (table_of i) page_tables ++ tables_from (S i) rest
  | None :: _ => []
  | [] => []
  end.

Definition extract_tables (pdf : PdfFile) : list Table :=
  match plumber_open pdf with
  | Some pages => tables_from 0 pages
  | None => []
  end.

(** [for t in set(title_candidates): title[lang] = ...] *)
Definition infer_title (candidates : list str) : dict lang str :=
  foldl (fun title t =>
           let l := detect_language t in dict_set l (normalize l t) title)
        [] (elements (list_to_set candidates : gset str)).

(** The body of [for i, span_info in enumerate(spans)]: what span [i] appends
    to [heading_outline]. *)
Definition heading_candidate (junk : gset str) (median : Q) (page_num : positive)
    (spans : list SpanInfo) (i : nat) (span_info : SpanInfo) : list Candidate :=
  let text := span_text span_info in
  if bool_decide (text ∈ junk) || (length text <? 2) then []
  else if size_rules median i span_info || introduces_list spans i then
    let l := detect_language text in
    [ {| cand_text := [(l, normalize l text)]; cand_page := page_num;
         cand_size := span_size span_info |} ]
  else [].

(** The heading candidates of one page. *)
Definition page_candidates (junk : gset str) (median : Q) (page_num : positive)
    (spans : list SpanInfo) : list Candidate :=
  concat (imap (heading_candidate junk median page_num spans) spans).

Definition detect_headings (junk : gset str) (median : Q) (num_pages : nat)
    (page_spans : gmap positive (list SpanInfo)) : list Candidate :=
  flat_map (fun n =>
              let page_num := Pos.of_nat n in
              page_candidates junk median page_num (default [] (page_spans !! page_num)))
           (seq 1 num_pages).

Definition extract_document_info (pdf : PdfFile) : Outline :=
  match fitz_open pdf with
  | None => {| title := []; outline := []; tables := [] |}
  | Some document =>
      let num_pages := length document in
      let all_text_spans := collect_spans document in
      let page_spans := group_spans all_text_spans in
      let median := median_body_font_size all_text_spans in
      let junk_candidates := detect_junk_candidates all_text_spans num_pages in
      let page_0_spans :=
        List.filter (fun s => Pos.eqb (span_page s) 1
                              && negb (bool_decide (span_text s ∈ junk_candidates)))
                    all_text_spans in
      let title := infer_title (title_candidates page_0_spans) in
      let heading_outline := detect_headings junk_candidates median num_pages page_spans in
      let final_outline := remove_duplicates (assign_levels heading_outline) in
      {| title := title; outline := final_outline; tables := extract_tables pdf |}
  end.

End Extractor.

(** ** The relevance ranker ([r1b_document_intelligence.py]) *)

Record Section_ := {
  document : str;
  page_number : positive;
  section_title : dict lang str;
  refined_text : dict lang str
}.

Record Scored := {
  scored_section : Section_;
  relevance_score : Q
}.

Record ExtractedSection := {
  es_document : str;
  es_page_number : positive;
  es_section_title : dict lang str;
  importance_rank : nat
}.

Record SubSection := {
  ss_document : str;
  ss_page_number : positive;
  ss_refined_text : dict lang str
}.

Record Metadata := {
  input_documents : list str;
  persona : str;
  job_to_be_done : str;
  processing_timestamp : str
}.

Record RankedResult := {
  metadata : Metadata;
  extracted_sections : list ExtractedSection;
  sub_section_analysis : list SubSection
}.

(** [entry["text"]] is a [dict] or a plain [str]. *)
Inductive TitleValue :=
  | TitleDict (d : dict lang str)
  | TitleStr (s : str).

Definition text_has_invalid_characters (text : str) (l : lang) : bool :=
  match l with
  | hi | mr => negb (existsb is_devanagari text)
  | en => false
  end.

Definition is_relevant_section (text : str) (keywords : list str) : bool :=
  let text_lower := lower text in
  existsb (fun kw => contains kw text_lower) keywords.

Definition keywords : list str :=
  [lit "gnn"; lit "drug discovery"; lit "molecular"; lit "neural"; lit "biology"].

Definition ENABLE_KEYWORD_FILTER : bool := false.

(** [page_text[idx:idx+200].strip()] with [idx] the place of the title, or 0. *)
Definition excerpt (page_text title_text : str) : str :=
  let idx := match find title_text page_text with
             | Some i => i
             | None => 0
             end in
  strip (slice idx (idx + 200) page_text).

(** [page_texts[page_num-1] if page_num-1 < len(page_texts) else ""] *)
Definition page_text_of (page_texts : list str) (page_num : positive) : str :=
  default [] (page_texts !! (Pos.to_nat page_num - 1)).

(** [output_sections] and [sub_section_analysis], filled by one loop. *)
Definition output_sections (ranked_sections : list Scored) : list ExtractedSection :=
  imap (fun i s =>
          {| es_document := document (scored_section s);
             es_page_number := page_number (scored_section s);
             es_section_title := section_title (scored_section s);
             importance_rank := i + 1 |}) ranked_sections.

Definition sub_sections (ranked_sections : list Scored) : list SubSection :=
  map (fun s =>
         {| ss_document := document (scored_section s);
            ss_page_number := page_number (scored_section s);
            ss_refined_text := refined_text (scored_section s) |}) ranked_sections.

(** [np.dot] of two vectors. *)
Definition dot (u v : list Q) : Q :=
  fold_right Qplus 0%Q (map (fun p => (p.1 * p.2)%Q) (combine u v)).

Section Ranker.

Variable detect : str -> option string.
Variable wordninja_split : str -> list str.
Variable trivial_tokenize : option (str -> lang -> list str).

(** [model.encode(text, normalize_embeddings=True)] *)
Variable encode : str -> list Q.

(** [time.strftime(...)] *)
Variable now : str.

Abbreviation detect_language := (detect_language detect).

Definition extract_page_text (pdf : PdfFile) (page_num : nat) (page : Page)
  : str * lang :=
  let text := get_text page in
  let l := detect_language text in
  let '(text, l) :=
    if text_has_invalid_characters text l then
      match plumber_text pdf page_num with
      | Some t => (t, detect_language t)
      | None => ([], l)
      end
    else (text, l) in
  let text := if text_has_invalid_characters text l then [] else text in
  (text, l).

(** One iteration of [for lang_code, title_text in section_title.items()];
    the state is [(section_title_dict, refined_text_dict)]. *)
Definition lang_step (page_text : str) (st : dict lang str * dict lang str)
    (item : lang * str) : dict lang str * dict lang str :=
  let '(lang_code, title_text) := item in
  match page_text with
  | [] => st
  | _ :: _ =>
      if bool_decide (detect_language page_text = lang_code)
         || bool_decide (lang_code = en) then
        match excerpt page_text title_text with
        | [] => st
        | para => (dict_set lang_code title_text st.1, dict_set lang_code para st.2)
        end
      else st
  end.

Definition excerpts_for (page_text : str) (section_title : TitleValue)
  : dict lang str * dict lang str :=
  match section_title with
  | TitleDict d => foldl (lang_step page_text) ([], []) d
  | TitleStr s =>
      match page_text with
      | [] => ([], [])
      | _ :: _ =>
          let lang_code := detect_language page_text in
          match excerpt page_text s with
          | [] => ([], [])
          | para => ([(lang_code, s)], [(lang_code, para)])
          end
      end
  end.

(** The body of [for entry in outline]: the sections it appends. *)
Definition entry_sections (enable_keyword_filter : bool) (kws : list str)
    (doc_name : str) (page_texts : list str) (page_num : positive)
    (section_title : TitleValue) : list Section_ :=
  let '(section_title_dict, refined_text_dict) :=
    excerpts_for (page_text_of page_texts page_num) section_title in
  if enable_keyword_filter
     && negb (is_relevant_section (join [space] (dict_values refined_text_dict)) kws)
  then []
  else match refined_text_dict with
       | [] => []
       | _ :: _ => [ {| document := doc_name; page_number := page_num;
                        section_title := section_title_dict;
                        refined_text := refined_text_dict |} ]
       end.

(** The sections of one document.  [main_r1b] opens the document a second
    time, outside any [try]: the result is [None] when this [fitz.open]
    raises.  The other calls of the loop are taken to return. *)
Definition document_sections (enable_keyword_filter : bool) (kws : list str)
    (pdf : PdfFile) : option (list Section_) :=
  let outline_json := extract_document_info detect wordninja_split trivial_tokenize pdf in
  match fitz_open pdf with
  | None => None
  | Some doc =>
      let page_texts := imap (fun i page => (extract_page_text pdf i page).1) doc in
      Some (flat_map (fun entry =>
                        entry_sections enable_keyword_filter kws (file_name pdf)
                          page_texts (entry_page entry) (TitleDict (entry_text entry)))
                     (outline outline_json))
  end.

Fixpoint all_sections_of (enable_keyword_filter : bool) (kws : list str)
    (pdfs : list PdfFile) : option (list Section_) :=
  match pdfs with
  | [] => Some []
  | pdf :: rest =>
      match document_sections enable_keyword_filter kws pdf with
      | None => None
      | Some here =>
          match all_sections_of enable_keyword_filter kws rest with
          | None => None
          | Some later => Some (here ++ later)
          end
      end
  end.

Definition section_text (s : Section_) : str :=
  join [space] (dict_values (section_title s) ++ dict_values (refined_text s)).

Definition score_sections (query_embedding : list Q) (all_sections : list Section_)
  : list Scored :=
  map (fun s => {| scored_section := s;
                   relevance_score := dot query_embedding (encode (section_text s)) |})
      all_sections.

Definition rank_sections (scored_sections : list Scored) : list Scored :=
  sorted_desc_by relevance_score scored_sections.

(** [main_r1b] with the constants of the source as arguments; [persona_txt]
    and [job_txt] are the contents of the two optional files.  A result
    [Some r] is a run that completes, with [r] the object it writes.  The one
    exception that is modelled is that of [fitz.open]: the result is [None]
    when a document cannot be opened.  Loading the model, [model.encode] and
    [page.get_text] are taken to return, so [None] is a run that cannot
    complete, and [Some r] says what a run writes if it completes. *)
Definition run_r1b (enable_keyword_filter : bool) (kws : list str)
    (pdfs : list PdfFile) (persona_txt job_txt : option str) : option RankedResult :=
  let persona_definition :=
    match persona_txt with
    | Some t => strip t
    | None => lit "PhD Researcher in Computational Biology"
    end in
  let job :=
    match job_txt with
    | Some t => strip t
    | None => lit "Review GNNs for drug discovery"
    end in
  let query_embedding := encode (persona_definition ++ [space] ++ job) in
  match all_sections_of enable_keyword_filter kws pdfs with
  | None => None
  | Some all_sections =>
      let ranked_sections := rank_sections (score_sections query_embedding all_sections) in
      Some {| metadata := {| input_documents := map file_name pdfs;
                             persona := persona_definition;
                             job_to_be_done := job;
                             processing_timestamp := now |};
              extracted_sections := output_sections ranked_sections;
              sub_section_analysis := sub_sections ranked_sections |}
  end.

Definition main_r1b := run_r1b ENABLE_KEYWORD_FILTER keywords.

End Ranker.

(** ** The simplified ranker ([r1b_document_intelligence_simple.py]) *)

(** [s.split()]: the maximal runs of characters that are not white space;
    [cur] is the run being read. *)
Fixpoint split_go (cur : str) (s : str) : list str :=
  match s with
  | [] => match cur with [] => [] | _ :: _ => [cur] end
  | c :: r =>
      if is_space c then
        match cur with
        | [] => split_go [] r
        | _ :: _ => cur :: split_go [] r
        end
      else split_go (cur ++ [c]) r
  end.

Definition split (s : str) : list str := split_go [] s.

Module Simple.

(** The keywords found: [keyword.lower() in text_lower]. *)
Definition matches (text_lower : str) (kws : list str) : nat :=
  length (List.filter (fun keyword => contains (lower keyword) text_lower) kws).

Definition calculate_simple_relevance_score (text : str)
    (persona_keywords job_keywords : list str) : Q :=
  let text_lower := lower text in
  let score :=
    inject_Z (Z.of_nat (matches text_lower persona_keywords
                        + 2 * matches text_lower job_keywords)) in
  match text with
  | [] => score
  | _ :: _ => (score / inject_Z (Z.of_nat (length (split text) + 1)))%Q
  end.

Definition persona_keywords : list str :=
  [lit "phd"; lit "researcher"; lit "computational"; lit "biology"; lit "research";
   lit "scientist"].

Definition job_keywords : list str :=
  [lit "gnn"; lit "drug"; lit "discovery"; lit "molecular"; lit "neural";
   lit "graph"; lit "network"; lit "machine learning"; lit "ai"].

Section Ranker.

Variable detect : str -> option string.
Variable wordninja_split : str -> list str.
Variable trivial_tokenize : option (str -> lang -> list str).

(** [extract_page_text] of the simplified ranker: one fallback, no final
    check. *)
Definition extract_page_text (pdf : PdfFile) (page_num : nat) (page : Page)
  : str * lang :=
  let text := get_text page in
  let l := detect_language detect text in
  if text_has_invalid_characters text l then
    match plumber_text pdf page_num with
    | Some t => (t, detect_language detect t)
    | None => ([], l)
    end
  else (text, l).

Definition document_sections (enable_keyword_filter : bool) (kws : list str)
    (pdf : PdfFile) : option (list Section_) :=
  let outline_json := extract_document_info detect wordninja_split trivial_tokenize pdf in
  match fitz_open pdf with
  | None => None
  | Some doc =>
      let page_texts := imap (fun i page => (extract_page_text pdf i page).1) doc in
      Some (flat_map (fun entry =>
                        entry_sections detect enable_keyword_filter kws (file_name pdf)
                          page_texts (entry_page entry) (TitleDict (entry_text entry)))
                     (outline outline_json))
  end.

Fixpoint all_sections_of (enable_keyword_filter : bool) (kws : list str)
    (pdfs : list PdfFile) : option (list Section_) :=
  match pdfs with
  | [] => Some []
  | pdf :: rest =>
      match document_sections enable_keyword_filter kws pdf with
      | None => None
      | Some here =>
          match all_sections_of enable_keyword_filter kws rest with
          | None => None
          | Some later => Some (here ++ later)
          end
      end
  end.

Definition score_sections (all_sections : list Section_) : list Scored :=
  map (fun s => {| scored_section := s;
                   relevance_score :=
                     calculate_simple_relevance_score (section_text s)
                       persona_keywords job_keywords |})
      all_sections.

(** [main_r1b] of the simplified ranker; the persona and the job only go
    into the metadata. *)
Definition run_r1b (now : str) (enable_keyword_filter : bool) (kws : list str)
    (pdfs : list PdfFile) (persona_txt job_txt : option str) : option RankedResult :=
  match all_sections_of enable_keyword_filter kws pdfs with
  | None => None
  | Some all_sections =>
      let ranked_sections := rank_sections (score_sections all_sections) in
      Some {| metadata :=
                {| input_documents := map file_name pdfs;
                   persona := match persona_txt with
                              | Some t => strip t
                              | None => lit "PhD Researcher in Computational Biology"
                              end;
                   job_to_be_done := match job_txt with
                                     | Some t => strip t
                                     | None => lit "Review GNNs for drug discovery"
                                     end;
                   processing_timestamp := now |};
              extracted_sections := output_sections ranked_sections;
              sub_section_analysis := sub_sections ranked_sections |}
  end.

End Ranker.

End Simple.

(** ** Definitions used in the statements *)

(** The number of elements of [l] that satisfy [P]. *)
Definition count_if (P : Q -> bool) (l : list Q) : nat := length (List.filter P l).

(** Does language [l] with title [title_text] get an excerpt on a page? *)
Definition yields_excerpt (detect : str -> option string) (page_text : str)
    (l : lang) (title_text : str) : bool :=
  match page_text with
  | [] => false
  | _ :: _ =>
      (bool_decide (detect_language detect page_text = l) || bool_decide (l = en))
      && match excerpt page_text title_text with [] => false | _ :: _ => true end
  end.

(** A scored section with its document identifier replaced. *)
Definition rename_document (f : str -> str) (s : Scored) : Scored :=
  {| scored_section :=
       {| document := f (document (scored_section s));
          page_number := page_number (scored_section s);
          section_title := section_title (scored_section s);
          refined_text := refined_text (scored_section s) |};
     relevance_score := relevance_score s |}.

(** Every white space character of [s] is one space that is not followed by
    another white space character. *)
Fixpoint single_spaced (s : str) : bool :=
  match s with
  | [] => true
  | c :: r =>
      (if is_space c then
         (c =? space)%N
         && match r with
            | c' :: _ => negb (is_space c')
            | [] => true
            end
       else true)
      && single_spaced r
  end.

(** [s] neither starts nor ends with white space. *)
Definition trimmed (s : str) : Prop :=
  (∀ c r, s = c :: r → is_space c = false)
  ∧ (∀ r c, s = r ++ [c] → is_space c = false).

(** [largest_font_size] when the scan of the title inferencer ends. *)
Definition largest_font_size (page_0_spans : list SpanInfo) : Q :=
  (foldl title_step (0%Q, []) page_0_spans).1.

(** The outline entry of a leveled candidate: the key of the deduplication. *)
Definition entry_of (h : Leveled) : HeadingEntry :=
  {| entry_level := lv_level h; entry_text := lv_text h; entry_page := lv_page h |}.

(** The median of a list of sizes in the usual sense: the middle element in
    ascending order, the mean of the two middle elements for an even count. *)
Definition spec_median (sizes : list Q) : Q :=
  let s := sorted_asc sizes in
  let n := length sizes in
  if Nat.odd n then nth (n / 2) s 0%Q
  else ((nth (n / 2 - 1) s 0 + nth (n / 2) s 0) / 2)%Q.

(** The median body size in the words of the specification: the median of the
    sizes of the spans sized in [8, 14], or 12 without such a span. *)
Definition spec_median_body_font_size (all_text_spans : list SpanInfo) : Q :=
  match map span_size
            (List.filter (fun s => in_body_band (span_size s)) all_text_spans) with
  | [] => 12%Q
  | band => spec_median band
  end.

(** ** Scenario data *)

Definition raw (t : string) (sz : Q) (f : string) : RawSpan :=
  {| raw_text := lit t; raw_size := sz; raw_font := lit f;
     raw_origin := (0, 0)%Q; raw_bbox := (0, 0, 0, 0)%Q |}.

Definition page_of_spans (spans : list RawSpan) (t : string) : Page :=
  {| get_blocks := Some [ {| block_type := 0; block_lines := [spans] |} ];
     get_text := lit t |}.

Definition pdf_of_pages (name : string) (pages : list Page) : PdfFile :=
  {| file_name := lit name; fitz_open := Some pages; plumber_open := Some [];
     plumber_text := fun _ => None |}.

(** Scenario 1: one page, "INTRODUCTION" at 18 pt in a bold font and
    "This is body text." at 11 pt. *)
Definition scenario1_doc : Document :=
  [ page_of_spans [ raw "INTRODUCTION" 18 "Helvetica-Bold";
                    raw "This is body text." 11 "Helvetica" ]
                  "INTRODUCTION This is body text." ].

Definition scenario1 : PdfFile := pdf_of_pages "scenario1.pdf" scenario1_doc.

Definition always_en (_ : str) : option string := Some "en"%string.
Definition one_word (s : str) : list str := [s].

Definition span_on (t : string) (p : positive) : SpanInfo :=
  {| span_text := lit t; span_size := 10; span_font := lit "Helvetica";
     span_is_bold := false; span_origin := (0, 0)%Q; span_bbox := (0, 0, 0, 0)%Q;
     span_page := p |}.

(** Scenario 2: six pages, the same running header on five of them (twice on
    the first), and a footer on three of them. *)
Definition scenario2 : list SpanInfo :=
  [ span_on "Annual Report" 1; span_on "Overview" 1; span_on "Annual Report" 1;
    span_on "Confidential" 1;
    span_on "Annual Report" 2; span_on "Confidential" 2;
    span_on "Annual Report" 3; span_on "Confidential" 3;
    span_on "Annual Report" 4; span_on "Results" 4;
    span_on "Annual Report" 5;
    span_on "Appendix" 6 ].

Definition heading (lv : level) (t : string) (p : positive) : HeadingEntry :=
  {| entry_level := lv; entry_text := [(en, lit t)]; entry_page := p |}.

(** A path that [fitz.open] cannot open. *)
Definition unreadable : PdfFile :=
  {| file_name := lit "broken.pdf"; fitz_open := None; plumber_open := None;
     plumber_text := fun _ => None |}.

(** Scenario 4: two one-page documents; only the first mentions a drug. *)
Definition drug_pdf : PdfFile :=
  pdf_of_pages "drug.pdf"
    [ page_of_spans [ raw "Drug Discovery" 18 "Helvetica-Bold";
                      raw "Graph networks help drug discovery pipelines." 11 "Helvetica" ]
                    "Drug Discovery Graph networks help drug discovery pipelines." ].

Definition summary_pdf : PdfFile :=
  pdf_of_pages "summary.pdf"
    [ page_of_spans [ raw "Conclusions" 18 "Helvetica-Bold";
                      raw "We summarise the findings." 11 "Helvetica" ]
                    "Conclusions We summarise the findings." ].

(** An embedder for the examples: one coordinate, the length of the text. *)
Definition encode_length (s : str) : list Q := [inject_Z (Z.of_nat (length s))].

Definition gated_sections : option (list Section_) :=
  all_sections_of always_en one_word None true [lit "drug"] [drug_pdf; summary_pdf].

Definition ranking_run (enable_keyword_filter : bool) : option RankedResult :=
  run_r1b always_en one_word None encode_length (lit "2026-01-01T00:00:00")
          enable_keyword_filter [lit "drug"] [drug_pdf; summary_pdf] None None.

Definition cand (t : string) (p : positive) (sz : Q) : Candidate :=
  {| cand_text := [(en, lit t)]; cand_page := p; cand_size := sz |}.

(** Candidates of three sizes more than 5% apart. *)
Definition three_levels : list Candidate :=
  [ cand "Methods" 2 15; cand "Survey" 1 20; cand "Data" 2 10 ].

(** A two-page document with the same header on both pages. *)
Definition two_pages_with_header : list SpanInfo :=
  [ span_on "Header" 1; span_on "First" 1; span_on "Header" 2; span_on "Second" 2 ].

Definition sized_span (t : string) (sz : Q) : SpanInfo :=
  {| span_text := lit t; span_size := sz; span_font := lit "Helvetica";
     span_is_bold := false; span_origin := (0, 0)%Q; span_bbox := (0, 0, 0, 0)%Q;
     span_page := 1 |}.

(** A page with a heading and two body spans of different sizes: the band
    holds the two sizes 12 and 10. *)
Definition two_body_sizes : list SpanInfo :=
  [ sized_span "Overview" 18; sized_span "Set in twelve points." 12;
    sized_span "Set in ten points." 10 ].

Definition leveled (lv : level) (t : string) (p : positive) (sz : Q) : Leveled :=
  {| lv_level := lv; lv_text := [(en, lit t)]; lv_page := p; lv_size := sz |}.

(** Leveled candidates in which the first one comes back after another. *)
Definition repeated_heading : list Leveled :=
  [ leveled H1 "Methods" 1 18; leveled H2 "Data" 1 14; leveled H1 "Methods" 1 18 ].

(** Scenario 4 with a third path that cannot be opened. *)
Definition run_with_unreadable : option RankedResult :=
  run_r1b always_en one_word None encode_length (lit "2026-01-01T00:00:00")
          false keywords [drug_pdf; unreadable; summary_pdf] None None.

(** * Properties *)

(** ** The noise filter *)

Section NoiseFilter.

Implicit Types (spans : list SpanInfo) (t : str) (p : positive).

Lemma count_page_lookup (texts : list str) (freq : gmap str nat) t :
  default 0 (count_page texts freq !! t)
  = default 0 (freq !! t) + (if decide (t ∈ texts) then 1 else 0).
Proof.
  unfold count_page.
  pose (P := fun (r : gmap str nat) (X : gset str) =>
               default 0 (r !! t)
               = default 0 (freq !! t) + (if decide (t ∈ X) then 1 else 0)).
  assert (HP : ∀ X, P (set_fold (fun t fr => <[t:=S (default 0 (fr !! t))]> fr) freq X) X).
  { apply (set_fold_ind_L P); unfold P.
    - rewrite decide_False by set_solver. lia.
    - intros x X r Hx IH. destruct (decide (x = t)) as [->|Hne].
      + rewrite lookup_insert_eq. simpl. rewrite IH.
        rewrite (decide_False (P:=t ∈ X)) by done.
        rewrite decide_True; [lia|]. apply elem_of_union. left.
        by apply elem_of_singleton.
      + rewrite lookup_insert_ne by done. rewrite IH.
        destruct (decide (t ∈ X)).
        * rewrite decide_True; [done|]. apply elem_of_union. by right.
        * rewrite decide_False; [done|]. rewrite elem_of_union, elem_of_singleton.
          intros [?|?]; congruence. }
  unfold P in HP. rewrite HP.
  destruct (decide (t ∈ texts)).
  - rewrite decide_True; [done | by apply elem_of_list_to_set].
  - rewrite decide_False; [done | by rewrite elem_of_list_to_set].
Qed.

(** The counter holds, for each string, the number of pages whose text list
    has it. *)
Lemma page_frequencies_lookup (m : gmap positive (list str)) t :
  default 0 (page_frequencies m !! t)
  = size (filter (fun kv : positive * list str => t ∈ kv.2) m).
Proof.
  unfold page_frequencies.
  apply (map_fold_weak_ind
           (fun (r : gmap str nat) (m : gmap positive (list str)) =>
              default 0 (r !! t)
              = size (filter (fun kv : positive * list str => t ∈ kv.2) m))).
  - by rewrite lookup_empty, map_filter_empty, map_size_empty.
  - intros i x m' r Hi IH. rewrite count_page_lookup, IH.
    destruct (decide (t ∈ x)) as [Hin|Hout].
    + rewrite map_filter_insert_True by done.
      rewrite map_size_insert_None; [lia|].
      apply map_lookup_filter_None. left. done.
    + rewrite map_filter_insert_not'; [lia | done |].
      intros y Hy. congruence.
Qed.

Lemma group_by_page_acc spans (acc : gmap positive (list str)) p t :
  (∃ texts, foldl (fun pt span =>
                     <[span_page span :=
                         default [] (pt !! span_page span) ++ [clean_text (span_text span)]]> pt)
                  acc spans !! p = Some texts ∧ t ∈ texts)
  ↔ (∃ texts, acc !! p = Some texts ∧ t ∈ texts)
    ∨ (∃ s, s ∈ spans ∧ span_page s = p ∧ clean_text (span_text s) = t).
Proof.
  revert acc. induction spans as [|s spans IH]; intros acc; simpl.
  - split; [auto | intros [H | (s & Hs & _)]; [done | by apply elem_of_nil in Hs]].
  - rewrite IH. split.
    + intros [(texts & Hl & Ht) | (s' & Hs' & Hp & Hc)].
      * destruct (decide (span_page s = p)) as [<-|Hne].
        -- rewrite lookup_insert_eq in Hl. injection Hl as <-.
           apply elem_of_app in Ht as [Ht | Ht].
           ++ left. destruct (acc !! span_page s) as [old|] eqn:E; simpl in Ht.
              ** eauto.
              ** by apply elem_of_nil in Ht.
           ++ right. exists s. apply list_elem_of_singleton in Ht.
              split; [left | done].
        -- rewrite lookup_insert_ne in Hl by done. left. eauto.
      * right. exists s'. split; [by right | done].
    + intros [(texts & Hl & Ht) | (s' & Hs' & Hp & Hc)].
      * left. destruct (decide (span_page s = p)) as [<-|Hne].
        -- rewrite lookup_insert_eq, Hl. simpl. eexists. split; [done|].
           apply elem_of_app. by left.
        -- rewrite lookup_insert_ne by done. eauto.
      * apply elem_of_cons in Hs' as [-> | Hs'].
        -- left. subst p. rewrite lookup_insert_eq. eexists. split; [done|].
           apply elem_of_app. right. subst t. by left.
        -- right. eauto.
Qed.

Lemma group_by_page_spec spans p t :
  (∃ texts, group_by_page spans !! p = Some texts ∧ t ∈ texts)
  ↔ ∃ s, s ∈ spans ∧ span_page s = p ∧ clean_text (span_text s) = t.
Proof.
  unfold group_by_page. rewrite group_by_page_acc. split.
  - intros [(texts & Hl & _) | H]; [by rewrite lookup_empty in Hl | done].
  - by right.
Qed.

Lemma pages_containing_spec spans t :
  size (filter (fun kv : positive * list str => t ∈ kv.2) (group_by_page spans))
  = pages_containing t spans.
Proof.
  unfold pages_containing. rewrite <- (size_dom (D:=gset positive)). f_equal.
  apply set_eq. intros p.
  rewrite elem_of_dom, elem_of_list_to_set, list_elem_of_fmap.
  unfold is_Some. setoid_rewrite map_lookup_filter_Some. simpl.
  setoid_rewrite list_elem_of_filter.
  pose proof (group_by_page_spec spans p t) as H. split.
  - intros (texts & Hl & Ht). destruct H as [H _].
    destruct H as (s & Hs & Hp & Hc); [eauto|]. exists s. eauto.
  - intros (s & -> & Hc & Hs). destruct H as [_ H].
    destruct H as (texts & Hl & Ht); [eauto|]. eauto.
Qed.

Lemma threshold_ge_2 n : 2 ≤ threshold n.
Proof. unfold threshold. lia. Qed.

Lemma detect_junk_candidates_spec spans num_pages t :
  t ∈ detect_junk_candidates spans num_pages
  ↔ threshold num_pages ≤ pages_containing t spans ∧ 0 < length t < 80.
Proof.
  unfold detect_junk_candidates.
  rewrite elem_of_list_to_set, list_elem_of_fmap.
  rewrite <- pages_containing_spec, <- page_frequencies_lookup.
  pose proof (threshold_ge_2 num_pages) as H2. split.
  - intros ([t' c] & -> & H). apply list_elem_of_filter in H as [(Hc & Hlen) Hin].
    apply elem_of_map_to_list in Hin. simpl in *. rewrite Hin. simpl. lia.
  - intros [Hc Hlen].
    destruct (page_frequencies (group_by_page spans) !! t) as [c|] eqn:E;
      simpl in Hc; [|lia].
    exists (t, c). split; [done|]. apply list_elem_of_filter. split.
    + unfold is_junk. simpl. lia.
    + by apply elem_of_map_to_list.
Qed.

Lemma agrees_from_sound fuel : ∀ p q,
  agrees_from fuel p = true →
  (Zpos p ≤ Zpos q < Zpos p + Z.of_nat fuel)%Z →
  b64_trunc (b64_mul (S754_finite false q 0) b64_0_6) = (Zpos q * 6 / 10)%Z.
Proof.
  induction fuel as [|k IH]; intros p q Hc Hq; [lia|].
  cbn [agrees_from] in Hc. apply andb_prop in Hc as [Hp Hk].
  destruct (decide (p = q)) as [<-|Hne].
  - by apply Z.eqb_eq.
  - apply (IH (Pos.succ p)); [done|].
    assert (Zpos p ≠ Zpos q) by congruence. lia.
Qed.

Lemma agrees_upto_100000 : agrees_from (N.to_nat 100000) 1 = true.
Proof. vm_cast_no_check (eq_refl true). Qed.

(** Up to 100000 pages the truncated binary64 product is the exact floor. *)
Lemma int_mul_0_6_floor n :
  (Z.of_nat n ≤ 100000)%Z → int_mul_0_6 n = n * 6 / 10.
Proof.
  intros Hn. unfold int_mul_0_6, b64_of_nat.
  destruct (Z.of_nat n) as [|q|q] eqn:E; [| |lia].
  - assert (n = 0) as -> by lia. reflexivity.
  - rewrite (agrees_from_sound _ 1 q agrees_upto_100000) by lia.
    rewrite <- E. apply Nat2Z.inj.
    rewrite Z2Nat.id by (apply Z.div_pos; lia).
    rewrite Nat2Z.inj_div, Nat2Z.inj_mul. reflexivity.
Qed.

End NoiseFilter.

(** C1 (amended).  A cleaned string is noise exactly when the number of pages
    that contain it is at least the threshold and its length is strictly
    between 0 and 80; repeats within a page count once, since pages are
    counted as a set.  The threshold is [max(2, int(0.6 * num_pages))]: the
    product is truncated, not rounded up, so it is the floor of
    [0.6 * num_pages] (checked on the binary64 product for every page count
    up to 100000) and is 3, not 4, for six pages.  A string on 5 of 6 pages
    is noise. *)
Theorem noise_iff_page_count_reaches_floor_threshold :
  ∀ (spans : list SpanInfo) (num_pages : nat) (t : str),
    (t ∈ detect_junk_candidates spans num_pages
     ↔ threshold num_pages ≤ pages_containing t spans ∧ 0 < length t < 80)
    ∧ ((Z.of_nat num_pages ≤ 100000)%Z →
       threshold num_pages = Nat.max 2 (num_pages * 6 / 10))
    ∧ threshold 6 = 3
    ∧ (pages_containing t spans = 5 → 0 < length t < 80 →
       t ∈ detect_junk_candidates spans 6).
Proof.
  intros spans num_pages t. split; [apply detect_junk_candidates_spec|].
  split; [|split].
  - intros Hn. unfold threshold. by rewrite int_mul_0_6_floor.
  - vm_compute. reflexivity.
  - intros H5 Hlen. apply detect_junk_candidates_spec. rewrite H5.
    split; [|done]. vm_compute. lia.
Qed.

Lemma noise_iff_page_count_reaches_floor_threshold_witness :
  threshold 6 = Nat.max 2 (6 * 6 / 10)
  ∧ lit "Annual Report" ∈ detect_junk_candidates scenario2 6.
Proof.
  pose proof (noise_iff_page_count_reaches_floor_threshold
                scenario2 6 (lit "Annual Report")) as (_ & Hfloor & _ & Hfive).
  split.
  - apply Hfloor. vm_compute. discriminate.
  - apply Hfive; [vm_compute; reflexivity | vm_compute; lia].
Defined.

(** C1 as stated fails: with the threshold [max(2, ceil(0.6 * num_pages))]
    a footer on 3 of 6 pages would not be noise, but the filter marks it. *)
Lemma noise_ceil_threshold_counterexample :
  ¬ (∀ (spans : list SpanInfo) (num_pages : nat) (t : str),
       t ∈ detect_junk_candidates spans num_pages
       ↔ spec_threshold num_pages ≤ pages_containing t spans ∧ 0 < length t < 80).
Proof.
  intros H. specialize (H scenario2 6 (lit "Confidential")).
  assert (Hin : lit "Confidential" ∈ detect_junk_candidates scenario2 6).
  { apply (bool_decide_unpack _). vm_compute. exact I. }
  apply H in Hin as [Hc _]. vm_compute in Hc. lia.
Qed.

(** ** Stable sorting *)

Section Sorting.

Context {A : Type} (before : A -> A -> bool).

Lemma insert_by_perm x l : insert_by before x l ≡ₚ x :: l.
Proof.
  induction l as [|y r IH]; simpl; [done|].
  destruct (before x y); [done|]. rewrite IH. apply Permutation_swap.
Qed.

Lemma sorted_by_perm l : sorted_by before l ≡ₚ l.
Proof.
  induction l as [|x r IH]; simpl; [done|].
  rewrite insert_by_perm. by rewrite IH.
Qed.

(** Stability: a class of elements that are tied with each other keeps its
    order. *)
Lemma insert_by_filter_in (P : A -> bool) x l :
  (∀ y, P y = true → before x y = true) → P x = true →
  List.filter P (insert_by before x l) = x :: List.filter P l.
Proof.
  intros Htie Hx. induction l as [|y r IH]; simpl.
  - by rewrite Hx.
  - destruct (before x y) eqn:E; simpl.
    + by rewrite Hx.
    + destruct (P y) eqn:Ey; [|done].
      apply Htie in Ey. congruence.
Qed.

Lemma insert_by_filter_out (P : A -> bool) x l :
  P x = false → List.filter P (insert_by before x l) = List.filter P l.
Proof.
  intros Hx. induction l as [|y r IH]; simpl.
  - by rewrite Hx.
  - destruct (before x y); simpl.
    + by rewrite Hx.
    + by rewrite IH.
Qed.

Lemma sorted_by_stable (P : A -> bool) l :
  (∀ x y, P x = true → P y = true → before x y = true) →
  List.filter P (sorted_by before l) = List.filter P l.
Proof.
  intros Htie. induction l as [|x r IH]; simpl; [done|].
  destruct (P x) eqn:Ex.
  - rewrite insert_by_filter_in; [by rewrite IH | by auto | done].
  - by rewrite insert_by_filter_out.
Qed.

Hypothesis before_total : ∀ x y, before x y = false → before y x = true.
Hypothesis before_trans :
  ∀ x y z, before x y = true → before y z = true → before x z = true.

Lemma insert_by_sorted x l :
  StronglySorted (fun a b => before a b = true) l →
  StronglySorted (fun a b => before a b = true) (insert_by before x l).
Proof.
  induction 1 as [|y r Hr IH Hy]; simpl.
  - repeat constructor.
  - destruct (before x y) eqn:E.
    + constructor; [by constructor|]. constructor; [done|].
      eapply Forall_impl; [exact Hy|]. intros z Hz. by eapply before_trans.
    + constructor; [done|]. rewrite insert_by_perm. constructor; [|done].
      by apply before_total.
Qed.

Lemma sorted_by_sorted l :
  StronglySorted (fun a b => before a b = true) (sorted_by before l).
Proof.
  induction l as [|x r IH]; simpl; [constructor | by apply insert_by_sorted].
Qed.

End Sorting.

Lemma Qle_bool_total x y : Qle_bool x y = false → Qle_bool y x = true.
Proof.
  intros H. apply Qle_bool_iff. destruct (Qlt_le_dec y x) as [Hlt|Hle].
  - by apply Qlt_le_weak.
  - apply Qle_bool_iff in Hle. congruence.
Qed.

Lemma Qle_bool_trans x y z :
  Qle_bool x y = true → Qle_bool y z = true → Qle_bool x z = true.
Proof. rewrite !Qle_bool_iff. apply Qle_trans. Qed.

Lemma StronglySorted_weaken {A} (R R' : A -> A -> Prop) l :
  (∀ x y, R x y → R' x y) → StronglySorted R l → StronglySorted R' l.
Proof.
  intros HR. induction 1 as [|x r Hr IH Hx]; constructor; [done|].
  eapply Forall_impl; [exact Hx | auto].
Qed.

Lemma sorted_asc_sorted l : StronglySorted Qle (sorted_asc l).
Proof.
  unfold sorted_asc.
  eapply StronglySorted_weaken; [|apply sorted_by_sorted].
  - intros x y H. by apply Qle_bool_iff.
  - apply Qle_bool_total.
  - apply Qle_bool_trans.
Qed.

Lemma sorted_desc_by_sorted {A} (key : A -> Q) l :
  StronglySorted (fun a b => key b <= key a)%Q (sorted_desc_by key l).
Proof.
  unfold sorted_desc_by.
  eapply StronglySorted_weaken; [|apply sorted_by_sorted].
  - intros x y H. by apply Qle_bool_iff.
  - intros x y. apply Qle_bool_total.
  - intros x y z H1 H2. by eapply Qle_bool_trans.
Qed.

(** ** Heading levels *)

Lemma distinct_covers l x : x ∈ l → ∃ y, y ∈ distinct l ∧ (x == y)%Q.
Proof.
  revert x. induction l as [|a l IH]; intros x Hin; [by apply elem_of_nil in Hin|].
  simpl. destruct (existsb (Qeq_bool a) l) eqn:E.
  - apply elem_of_cons in Hin as [->|Hin]; [|by apply IH].
    apply existsb_exists in E as (y & Hy & Heq).
    apply Qeq_bool_iff in Heq. apply list_elem_of_In in Hy.
    destruct (IH y Hy) as (z & Hz & Hyz). exists z. split; [done|].
    by rewrite Heq.
  - apply elem_of_cons in Hin as [->|Hin].
    + exists a. split; [left | reflexivity].
    + destruct (IH x Hin) as (z & Hz & Hxz). exists z. split; [by right | done].
Qed.

(** Every candidate size is represented in the descending list of distinct
    sizes. *)
Lemma distinct_sizes_desc_covers hs h :
  h ∈ hs → ∃ y, y ∈ distinct_sizes_desc hs ∧ (cand_size h == y)%Q.
Proof.
  intros Hh. destruct (distinct_covers (map cand_size hs) (cand_size h))
    as (y & Hy & Heq).
  - apply list_elem_of_fmap. eauto.
  - exists y. split; [|done]. unfold distinct_sizes_desc, sorted_desc_by.
    apply (proj2 (elem_of_Permutation_proper y _ _ (sorted_by_perm _ _))). exact Hy.
Qed.

Lemma distinct_sizes_desc_sorted hs :
  StronglySorted (fun a b => b <= a)%Q (distinct_sizes_desc hs).
Proof. apply (sorted_desc_by_sorted (fun x => x)). Qed.

(** The head of the list bounds every candidate size. *)
Lemma size_le_largest hs h s0 rest :
  distinct_sizes_desc hs = s0 :: rest → h ∈ hs → (cand_size h <= s0)%Q.
Proof.
  intros Hs Hh. destruct (distinct_sizes_desc_covers hs h Hh) as (y & Hy & Heq).
  pose proof (distinct_sizes_desc_sorted hs) as Hsorted.
  rewrite Hs in Hy, Hsorted. rewrite Heq.
  apply StronglySorted_inv in Hsorted as [_ Hall].
  apply elem_of_cons in Hy as [->|Hy]; [apply Qle_refl|].
  rewrite Forall_forall in Hall. by apply Hall.
Qed.

(** A candidate size is the largest one or at most the second. *)
Lemma size_largest_or_le_second hs h s0 s1 rest :
  distinct_sizes_desc hs = s0 :: s1 :: rest → h ∈ hs →
  (cand_size h == s0 ∨ cand_size h <= s1)%Q.
Proof.
  intros Hs Hh. destruct (distinct_sizes_desc_covers hs h Hh) as (y & Hy & Heq).
  pose proof (distinct_sizes_desc_sorted hs) as Hsorted.
  rewrite Hs in Hy, Hsorted.
  apply StronglySorted_inv in Hsorted as [Hsorted _].
  apply StronglySorted_inv in Hsorted as [_ Hall].
  apply elem_of_cons in Hy as [->|Hy]; [by left|]. right. rewrite Heq.
  apply elem_of_cons in Hy as [->|Hy]; [apply Qle_refl|].
  rewrite Forall_forall in Hall. by apply Hall.
Qed.

Lemma elem_of_assign_levels hs a :
  a ∈ assign_levels hs →
  ∃ h, h ∈ hs ∧ lv_size a = cand_size h
       ∧ lv_level a = level_of (distinct_sizes_desc hs) (cand_size h).
Proof.
  unfold assign_levels. intros Ha. apply list_elem_of_fmap in Ha as (h & -> & Hh).
  exists h. done.
Qed.

Ltac qbool :=
  repeat match goal with
  | H : Qle_bool _ _ = true |- _ => apply Qle_bool_iff in H
  | H : Qle_bool ?x ?y = false |- _ =>
      assert (¬ (x <= y)%Q) by (rewrite <- Qle_bool_iff; congruence); clear H
  end.

(** C3.  After level assignment the levels are monotonic with font size:
    an H1 heading is at least 0.95 times as large as any H2 heading of the
    same document, and an H2 heading at least 0.95 times as large as any H3
    heading. *)
Theorem heading_levels_monotone_in_size :
  ∀ (hs : list Candidate) (a b : Leveled),
    a ∈ assign_levels hs → b ∈ assign_levels hs →
    (lv_level a = H1 → lv_level b = H2 → (0.95 * lv_size b <= lv_size a)%Q)
    ∧ (lv_level a = H2 → lv_level b = H3 → (0.95 * lv_size b <= lv_size a)%Q).
Proof.
  intros hs a b Ha Hb.
  apply elem_of_assign_levels in Ha as (ha & Hha & -> & ->).
  apply elem_of_assign_levels in Hb as (hb & Hhb & -> & ->).
  destruct (distinct_sizes_desc hs) as [|s0 rest] eqn:Hs; [simpl; split; discriminate|].
  pose proof (size_le_largest hs ha s0 rest Hs Hha) as Ha0.
  pose proof (size_le_largest hs hb s0 rest Hs Hhb) as Hb0.
  unfold level_of. split.
  - destruct (Qle_bool (s0 * 0.95) (cand_size ha)) eqn:Ea.
    2: { destruct rest as [|s1 rest']; [discriminate|].
         destruct (Qle_bool (s1 * 0.95) (cand_size ha)); discriminate. }
    destruct (Qle_bool (s0 * 0.95) (cand_size hb)) eqn:Eb; [discriminate|].
    intros _ _. qbool. lra.
  - destruct (Qle_bool (s0 * 0.95) (cand_size ha)) eqn:Ea; [discriminate|].
    destruct rest as [|s1 rest']; [discriminate|].
    destruct (Qle_bool (s1 * 0.95) (cand_size ha)) eqn:Ea1; [|discriminate].
    destruct (Qle_bool (s0 * 0.95) (cand_size hb)) eqn:Eb; [discriminate|].
    destruct (Qle_bool (s1 * 0.95) (cand_size hb)) eqn:Eb1; [discriminate|].
    intros _ _. qbool.
    destruct (size_largest_or_le_second hs hb s0 s1 rest' Hs Hhb) as [Heq|Hle]; lra.
Qed.

Lemma heading_levels_monotone_in_size_witness :
  (0.95 * 15 <= 20)%Q ∧ (0.95 * 10 <= 15)%Q.
Proof.
  pose (h1 := {| lv_level := H1; lv_text := [(en, lit "Survey")]; lv_page := 1;
                 lv_size := 20 |}).
  pose (h2 := {| lv_level := H2; lv_text := [(en, lit "Methods")]; lv_page := 2;
                 lv_size := 15 |}).
  pose (h3 := {| lv_level := H3; lv_text := [(en, lit "Data")]; lv_page := 2;
                 lv_size := 10 |}).
  assert (E : assign_levels three_levels = [h2; h1; h3]) by (vm_compute; reflexivity).
  split.
  - apply (proj1 (heading_levels_monotone_in_size three_levels h1 h2
                    ltac:(rewrite E; set_solver) ltac:(rewrite E; set_solver)));
      reflexivity.
  - apply (proj2 (heading_levels_monotone_in_size three_levels h2 h3
                    ltac:(rewrite E; set_solver) ltac:(rewrite E; set_solver)));
      reflexivity.
Defined.

(** ** The median body size *)

Lemma count_if_perm P l1 l2 : l1 ≡ₚ l2 → count_if P l1 = count_if P l2.
Proof.
  unfold count_if. induction 1 as [|x l1 l2 _ IH|x y l|l1 l2 l3 _ IH1 _ IH2]; simpl.
  - done.
  - destruct (P x); simpl; lia.
  - destruct (P x), (P y); simpl; lia.
  - lia.
Qed.

Lemma count_if_app P l1 l2 : count_if P (l1 ++ l2) = count_if P l1 + count_if P l2.
Proof. unfold count_if. by rewrite List.filter_app, length_app. Qed.

Lemma count_if_all P l : Forall (fun x => P x = true) l → count_if P l = length l.
Proof.
  unfold count_if. induction 1 as [|x l Hx _ IH]; simpl; [done|].
  rewrite Hx. simpl. lia.
Qed.

Lemma count_if_cons_true P x l : P x = true → count_if P (x :: l) = S (count_if P l).
Proof. unfold count_if. simpl. by intros ->. Qed.

(** The element of rank [k] of an ascending list splits it. *)
Lemma sorted_split (s : list Q) k m :
  StronglySorted Qle s → s !! k = Some m →
  Forall (fun x => x <= m)%Q (take k s) ∧ Forall (fun x => m <= x)%Q (drop (S k) s).
Proof.
  intros Hs Hk. rewrite <- (take_drop_middle s k m Hk) in Hs.
  apply StronglySorted_app in Hs as (Hcross & _ & Hr). split.
  - apply Forall_forall. intros x Hx. apply (Hcross x m Hx). left.
  - apply StronglySorted_inv in Hr as [_ Hall]. done.
Qed.

Lemma median_of_spec (band : list Q) :
  band ≠ [] →
  median_of band ∈ band
  ∧ sorted_asc band !! (length band / 2) = Some (median_of band)
  ∧ length band ≤ 2 * count_if (fun x => Qle_bool x (median_of band)) band
  ∧ length band ≤ 2 * count_if (fun x => Qle_bool (median_of band) x) band.
Proof.
  intros Hne. pose proof (sorted_by_perm Qle_bool band) as Hperm.
  fold (sorted_asc band) in Hperm.
  assert (Hlen : length (sorted_asc band) = length band) by by rewrite Hperm.
  assert (Hpos : 0 < length band) by (destruct band; [done | simpl; lia]).
  set (k := length band / 2).
  assert (Hk : k < length band) by (apply Nat.div_lt; lia).
  destruct (lookup_lt_is_Some_2 (sorted_asc band) k) as [m Hm]; [lia|].
  assert (Hmed : median_of band = m).
  { unfold median_of. destruct band as [|b band']; [done|].
    fold k. by apply nth_lookup_Some. }
  rewrite Hmed.
  destruct (sorted_split _ k m (sorted_asc_sorted band) Hm) as [Hlo Hhi].
  pose proof (take_drop_middle _ k m Hm) as Hsplit.
  assert (Hk2 : 2 * k ≤ length band ≤ 2 * k + 1).
  { pose proof (Nat.div_mod_eq (length band) 2).
    pose proof (Nat.mod_upper_bound (length band) 2). unfold k. lia. }
  assert (Hmm : Qle_bool m m = true) by (apply Qle_bool_iff, Qle_refl).
  split; [|split; [|split]].
  - rewrite <- Hperm. apply list_elem_of_lookup. eauto.
  - exact Hm.
  - rewrite <- (count_if_perm _ _ _ Hperm), <- Hsplit, count_if_app.
    rewrite count_if_all.
    2: { eapply Forall_impl; [exact Hlo|]. intros x Hx. by apply Qle_bool_iff. }
    rewrite length_take, count_if_cons_true by done. lia.
  - rewrite <- (count_if_perm _ _ _ Hperm), <- Hsplit, count_if_app.
    rewrite count_if_cons_true by done. rewrite (count_if_all _ (drop _ _)).
    2: { eapply Forall_impl; [exact Hhi|]. intros x Hx. by apply Qle_bool_iff. }
    rewrite length_drop. lia.
Qed.

Lemma body_font_sizes_spec spans :
  body_font_sizes spans
  = map span_size (List.filter (fun s => in_body_band (span_size s)) spans).
Proof.
  unfold body_font_sizes. induction spans as [|s r IH]; simpl; [done|].
  destruct (in_body_band (span_size s)); simpl; by rewrite IH.
Qed.

Lemma in_body_band_spec sz : in_body_band sz = true ↔ (8 <= sz ∧ sz <= 14)%Q.
Proof. unfold in_body_band. by rewrite andb_true_iff, !Qle_bool_iff. Qed.

Lemma median_of_vs_spec_median (band : list Q) :
  band ≠ [] →
  (Nat.odd (length band) = true → median_of band = spec_median band)
  ∧ (Nat.even (length band) = true →
     ∃ lo, sorted_asc band !! (length band / 2 - 1) = Some lo
           ∧ (lo <= median_of band)%Q
           ∧ (spec_median band == (lo + median_of band) / 2)%Q).
Proof.
  intros Hne. destruct (median_of_spec band Hne) as (_ & Hm & _).
  pose proof (sorted_by_perm Qle_bool band) as Hperm.
  fold (sorted_asc band) in Hperm.
  assert (Hlen : length (sorted_asc band) = length band) by by rewrite Hperm.
  split.
  - intros Hodd. unfold spec_median. rewrite Hodd.
    symmetry. by apply nth_lookup_Some.
  - intros Heven.
    assert (Hodd : Nat.odd (length band) = false).
    { rewrite <- Nat.negb_even, Heven. done. }
    assert (Hpos : 0 < length band) by (destruct band; [done | simpl; lia]).
    apply Nat.even_spec in Heven as [h Hh].
    assert (Hk : length band / 2 = h).
    { rewrite Hh, Nat.mul_comm. apply Nat.div_mul. lia. }
    rewrite Hk in Hm |- *.
    destruct (lookup_lt_is_Some_2 (sorted_asc band) (h - 1)) as [lo Hlo]; [lia|].
    exists lo. split; [done|]. split.
    + destruct (sorted_split _ h _ (sorted_asc_sorted band) Hm) as [Hbelow _].
      eapply (proj1 (Forall_forall _ _) Hbelow).
      apply list_elem_of_lookup. exists (h - 1).
      rewrite lookup_take_lt by lia. done.
    + unfold spec_median. rewrite Hodd, Hk.
      rewrite (nth_lookup_Some _ _ _ _ Hlo), (nth_lookup_Some _ _ _ _ Hm).
      apply Qeq_refl.
Qed.

(** C6 (amended).  The median body font size is computed from the sizes of the
    collected spans whose size lies in [8, 14]: it is 12 when there is none,
    and otherwise it is the size of rank [len // 2] in ascending order, so at
    least half of the sizes are at most it and at least half are at least it.
    This is the median when the number of sizes is odd; when it is even it is
    the upper of the two middle sizes, not their mean.  It is computed once
    per document: the heading detector gets the one value for all pages. *)
Theorem median_body_size_from_band :
  ∀ (spans : list SpanInfo),
    let band := map span_size
                    (List.filter (fun s => in_body_band (span_size s)) spans) in
    let m := median_body_font_size spans in
    (∀ sz, in_body_band sz = true ↔ (8 <= sz ∧ sz <= 14)%Q)
    ∧ (band = [] → m = 12%Q)
    ∧ (band ≠ [] →
       m ∈ band
       ∧ sorted_asc band !! (length band / 2) = Some m
       ∧ length band ≤ 2 * count_if (fun x => Qle_bool x m) band
       ∧ length band ≤ 2 * count_if (fun x => Qle_bool m x) band
       ∧ (Nat.odd (length band) = true → m = spec_median band)
       ∧ (Nat.even (length band) = true →
          ∃ lo, sorted_asc band !! (length band / 2 - 1) = Some lo
                ∧ (lo <= m)%Q
                ∧ (spec_median band == (lo + m) / 2)%Q))
    ∧ (∀ detect wordninja_split trivial_tokenize pdf document,
         fitz_open pdf = Some document →
         outline (extract_document_info detect wordninja_split trivial_tokenize pdf)
         = remove_duplicates
             (assign_levels
                (detect_headings detect wordninja_split trivial_tokenize
                   (detect_junk_candidates (collect_spans document) (length document))
                   (median_body_font_size (collect_spans document))
                   (length document)
                   (group_spans (collect_spans document))))).
Proof.
  intros spans band m. unfold m, median_body_font_size.
  rewrite body_font_sizes_spec. fold band.
  split; [apply in_body_band_spec|]. split; [by intros ->|]. split.
  - intros Hne. destruct (median_of_spec band Hne) as (H1 & H2 & H3 & H4).
    destruct (median_of_vs_spec_median band Hne) as (H5 & H6). done.
  - intros detect wordninja_split trivial_tokenize pdf document Hopen.
    unfold extract_document_info. by rewrite Hopen.
Qed.

Lemma median_body_size_from_band_witness :
  let band := map span_size (List.filter (fun s => in_body_band (span_size s))
                                         two_body_sizes) in
  band = [12; 10]%Q
  ∧ sorted_asc band !! 1 = Some (median_body_font_size two_body_sizes)
  ∧ ∃ lo, sorted_asc band !! 0 = Some lo
          ∧ (lo <= median_body_font_size two_body_sizes)%Q
          ∧ (spec_median band == (lo + median_body_font_size two_body_sizes) / 2)%Q.
Proof.
  intros band. split; [reflexivity|].
  destruct (median_body_size_from_band two_body_sizes) as (_ & _ & Hmed & _).
  destruct Hmed as (_ & Hrank & _ & _ & _ & Heven).
  - vm_compute. discriminate.
  - split; [exact Hrank|]. apply Heven. reflexivity.
Defined.

(** C6 as stated fails: with body sizes 10 and 12 the median is 11, but the
    value used is 12, the upper of the two. *)
Lemma median_of_even_band_counterexample :
  ¬ (∀ spans : list SpanInfo,
       (median_body_font_size spans == spec_median_body_font_size spans)%Q).
Proof.
  intros H. specialize (H two_body_sizes). vm_compute in H. discriminate.
Qed.

(** ** Scenario 1 *)

Section Scenario1.

Variable detect : str -> option string.
Variable wordninja_split : str -> list str.
Variable trivial_tokenize : option (str -> lang -> list str).

Hypothesis detect_heading : detect_language detect (lit "INTRODUCTION") = en.
Hypothesis split_heading : wordninja_split (lit "INTRODUCTION") = [lit "INTRODUCTION"].

Lemma normalize_heading :
  normalize wordninja_split trivial_tokenize en (lit "INTRODUCTION")
  = lit "INTRODUCTION".
Proof.
  unfold normalize, clean_english.
  change (lit "INTRODUCTION") with (73%N :: lit "NTRODUCTION") at 1.
  cbv iota.
  replace (contains [space] (lit "INTRODUCTION")) with false
    by (vm_compute; reflexivity).
  rewrite split_heading. vm_compute. reflexivity.
Qed.

Lemma scenario1_title :
  infer_title detect wordninja_split trivial_tokenize [lit "INTRODUCTION"]
  = [(en, lit "INTRODUCTION")].
Proof.
  unfold infer_title.
  replace (elements (list_to_set [lit "INTRODUCTION"] : gset str))
    with [lit "INTRODUCTION"] by (vm_compute; reflexivity).
  cbn [foldl]. rewrite detect_heading, normalize_heading. reflexivity.
Qed.

Lemma scenario1_candidates :
  detect_headings detect wordninja_split trivial_tokenize
    (detect_junk_candidates (collect_spans scenario1_doc) 1)
    (median_body_font_size (collect_spans scenario1_doc)) 1
    (group_spans (collect_spans scenario1_doc))
  = [cand "INTRODUCTION" 1 18].
Proof.
  unfold detect_headings. cbn [seq flat_map]. rewrite app_nil_r.
  change (Pos.of_nat 1) with 1%positive.
  set (junk := detect_junk_candidates (collect_spans scenario1_doc) 1).
  set (median := median_body_font_size (collect_spans scenario1_doc)).
  replace (default [] (group_spans (collect_spans scenario1_doc) !! 1%positive))
    with [ {| span_text := lit "INTRODUCTION"; span_size := 18;
              span_font := lit "Helvetica-Bold"; span_is_bold := true;
              span_origin := (0, 0)%Q; span_bbox := (0, 0, 0, 0)%Q;
              span_page := 1 |};
           {| span_text := lit "This is body text."; span_size := 11;
              span_font := lit "Helvetica"; span_is_bold := false;
              span_origin := (0, 0)%Q; span_bbox := (0, 0, 0, 0)%Q;
              span_page := 1 |} ]
    by (vm_compute; reflexivity).
  unfold page_candidates. cbn [imap concat]. unfold compose.
  unfold heading_candidate at 1. cbn [span_text span_size].
  replace (bool_decide (lit "INTRODUCTION" ∈ junk) || (length (lit "INTRODUCTION") <? 2))
    with false by (vm_compute; reflexivity).
  match goal with
  | |- context [size_rules median 0 ?s || introduces_list ?l 0] =>
      replace (size_rules median 0 s || introduces_list l 0) with true
        by (vm_compute; reflexivity)
  end.
  unfold heading_candidate.  cbn [span_text span_size].
  match goal with
  | |- context [size_rules median 1 ?s || introduces_list ?l 1] =>
      replace (size_rules median 1 s || introduces_list l 1) with false
        by (vm_compute; reflexivity)
  end.
  replace (bool_decide (lit "This is body text." ∈ junk)
           || (length (lit "This is body text.") <? 2))
    with false by (vm_compute; reflexivity).
  rewrite detect_heading, normalize_heading. reflexivity.
Qed.

Lemma scenario1_result :
  extract_document_info detect wordninja_split trivial_tokenize scenario1
  = {| title := [(en, lit "INTRODUCTION")];
       outline := [heading H1 "INTRODUCTION" 1];
       tables := [] |}.
Proof.
  unfold extract_document_info.
  change (fitz_open scenario1) with (Some scenario1_doc). cbv beta iota zeta.
  change (length scenario1_doc) with 1.
  rewrite scenario1_candidates.
  match goal with
  | |- context [title_candidates ?l] =>
      replace (title_candidates l) with [lit "INTRODUCTION"]
        by (vm_compute; reflexivity)
  end.
  rewrite scenario1_title. vm_compute. reflexivity.
Qed.

End Scenario1.

(** C2 (amended).  For the one-page document with the two spans
    "INTRODUCTION" (18 pt, bold) and "This is body text." (11 pt), when
    language identification gives en for the heading and the word splitter
    leaves it whole, the median body size is 11, the size of the one span in
    the band; the title is {en: "INTRODUCTION"}; and the outline is exactly
    one entry, H1, {en: "INTRODUCTION"}, page 1. *)
Theorem scenario1_outline :
  ∀ (detect : str -> option string) (wordninja_split : str -> list str)
    (trivial_tokenize : option (str -> lang -> list str)),
    detect_language detect (lit "INTRODUCTION") = en →
    wordninja_split (lit "INTRODUCTION") = [lit "INTRODUCTION"] →
    fitz_open scenario1 = Some scenario1_doc
    ∧ median_body_font_size (collect_spans scenario1_doc) = 11%Q
    ∧ extract_document_info detect wordninja_split trivial_tokenize scenario1
      = {| title := [(en, lit "INTRODUCTION")];
           outline := [heading H1 "INTRODUCTION" 1];
           tables := [] |}.
Proof.
  intros detect wordninja_split trivial_tokenize Hlang Hsplit.
  split; [reflexivity|]. split; [vm_compute; reflexivity|].
  by apply scenario1_result.
Qed.

Lemma scenario1_outline_witness :
  extract_document_info always_en one_word None scenario1
  = {| title := [(en, lit "INTRODUCTION")];
       outline := [heading H1 "INTRODUCTION" 1];
       tables := [] |}.
Proof.
  apply (scenario1_outline always_en one_word None);
    vm_compute; reflexivity.
Defined.

(** C2 as stated fails: the one span in the band makes the median 11, not
    12, and the heading keeps its capitals. *)
Lemma scenario1_claimed_outline_counterexample :
  (¬ ∃ detect wordninja_split trivial_tokenize,
       (median_body_font_size (collect_spans scenario1_doc) == 12)%Q
       ∧ title (extract_document_info detect wordninja_split trivial_tokenize scenario1)
         = [(en, lit "INTRODUCTION")]
       ∧ outline (extract_document_info detect wordninja_split trivial_tokenize
                    scenario1)
         = [heading H1 "Introduction" 1])
  ∧ outline (extract_document_info always_en one_word None scenario1)
    ≠ [heading H1 "Introduction" 1].
Proof.
  split.
  - intros (detect & wordninja_split & trivial_tokenize & Hmed & _).
    vm_compute in Hmed. discriminate.
  - vm_compute. discriminate.
Qed.

(** ** Strings *)

Lemma lstrip_length s : length (lstrip s) ≤ length s.
Proof. induction s as [|c r IH]; simpl; [done|]. destruct (is_space c); simpl; lia. Qed.

Lemma lstrip_nil s : lstrip s = [] ↔ forallb is_space s = true.
Proof.
  induction s as [|c r IH]; simpl; [done|].
  destruct (is_space c); simpl; [done|]. split; discriminate.
Qed.

Lemma lstrip_head s c r : lstrip s = c :: r → is_space c = false.
Proof.
  induction s as [|c' r' IH]; simpl; [discriminate|].
  destruct (is_space c') eqn:E; [done|]. by intros [= <- <-].
Qed.

Lemma forallb_rev {A} (P : A -> bool) l : forallb P (rev l) = forallb P l.
Proof.
  induction l as [|x r IH]; simpl; [done|].
  rewrite forallb_app, IH. simpl. rewrite andb_true_r. apply andb_comm.
Qed.

Lemma strip_length s : length (strip s) ≤ length s.
Proof.
  unfold strip, rstrip. rewrite length_rev.
  etrans; [apply lstrip_length|]. rewrite length_rev. apply lstrip_length.
Qed.

Lemma strip_nil s : strip s = [] ↔ forallb is_space s = true.
Proof.
  unfold strip, rstrip. rewrite <- lstrip_nil. split.
  - intros H. apply (f_equal (@rev N)) in H. rewrite rev_involutive in H. simpl in H.
    apply lstrip_nil in H. rewrite forallb_rev in H.
    destruct (lstrip s) as [|c r] eqn:E; [done|].
    apply lstrip_head in E. simpl in H. by rewrite E in H.
  - by intros ->.
Qed.

Lemma starts_with_spec p s : starts_with p s = true ↔ ∃ r, s = p ++ r.
Proof.
  revert s. induction p as [|a p IH]; intros s; simpl.
  - split; eauto.
  - destruct s as [|b s]; [split; [discriminate | by intros [r ?]]|].
    rewrite andb_true_iff, N.eqb_eq, IH. split.
    + intros [-> [r ->]]. eauto.
    + intros [r [= -> ->]]. eauto.
Qed.

Lemma find_Some sub s i :
  find sub s = Some i →
  starts_with sub (drop i s) = true ∧ ∀ j, j < i → starts_with sub (drop j s) = false.
Proof.
  revert i. induction s as [|c r IH]; intros i; simpl.
  - destruct (starts_with sub []) eqn:E; [|discriminate].
    intros [= <-]. split; [done | lia].
  - destruct (starts_with sub (c :: r)) eqn:E.
    + intros [= <-]. split; [done | lia].
    + destruct (find sub r) as [k|] eqn:Ek; [|discriminate].
      intros [= <-]. destruct (IH k eq_refl) as [Hk Hlt]. split; [done|].
      intros [|j] Hj; [done|]. simpl. apply Hlt. lia.
Qed.

Lemma find_None sub s :
  find sub s = None → ∀ j, starts_with sub (drop j s) = false.
Proof.
  induction s as [|c r IH]; simpl.
  - destruct (starts_with sub []) eqn:E; [discriminate|].
    intros _ j. by rewrite drop_nil.
  - destruct (starts_with sub (c :: r)) eqn:E; [discriminate|].
    destruct (find sub r) as [k|] eqn:Ek; [discriminate|].
    intros _ [|j]; [done|]. simpl. by apply IH.
Qed.

(** ** Excerpts *)

Lemma excerpt_found page_text title_text i :
  find title_text page_text = Some i →
  excerpt page_text title_text = strip (take 200 (drop i page_text)).
Proof.
  intros H. unfold excerpt, slice. rewrite H. do 2 f_equal. lia.
Qed.

Lemma excerpt_not_found page_text title_text :
  find title_text page_text = None →
  excerpt page_text title_text = strip (take 200 page_text).
Proof. intros H. unfold excerpt, slice. by rewrite H. Qed.

Lemma excerpt_length page_text title_text :
  length (excerpt page_text title_text) ≤ 200.
Proof.
  unfold excerpt, slice. etrans; [apply strip_length|].
  rewrite length_take. lia.
Qed.

Lemma lang_step_spec detect page_text st l title_text :
  lang_step detect page_text st (l, title_text)
  = if yields_excerpt detect page_text l title_text
    then (dict_set l title_text st.1, dict_set l (excerpt page_text title_text) st.2)
    else st.
Proof.
  unfold lang_step, yields_excerpt. destruct page_text as [|c r]; [done|].
  destruct (bool_decide _ || bool_decide _); [|done]. simpl.
  by destruct (excerpt (c :: r) title_text).
Qed.

(** ** Ordered dictionaries *)

Section Dict.

Context {K V : Type} `{EqDecision K}.

Lemma dict_set_keys_elem (k k' : K) (v : V) (d : dict K V) :
  k' ∈ dict_keys (dict_set k v d) ↔ k' = k ∨ k' ∈ dict_keys d.
Proof.
  unfold dict_keys. induction d as [|[k0 v0] r IH]; simpl.
  - rewrite list_elem_of_singleton, elem_of_nil. tauto.
  - destruct (decide (k = k0)) as [->|Hne]; simpl.
    + rewrite !elem_of_cons. tauto.
    + rewrite !elem_of_cons, IH. tauto.
Qed.

Lemma dict_set_keys_eq {W} (k : K) (v : V) (w : W) (d1 : dict K V) (d2 : dict K W) :
  dict_keys d1 = dict_keys d2 →
  dict_keys (dict_set k v d1) = dict_keys (dict_set k w d2).
Proof.
  unfold dict_keys. revert d2.
  induction d1 as [|[k1 v1] r1 IH]; intros [|[k2 v2] r2]; simpl; try discriminate.
  - done.
  - intros [= <- Hr]. destruct (decide (k = k1)); simpl; [by rewrite Hr|].
    f_equal. by apply IH.
Qed.

Lemma dict_set_elem (k k' : K) (v v' : V) (d : dict K V) :
  (k', v') ∈ dict_set k v d → (k' = k ∧ v' = v) ∨ (k', v') ∈ d.
Proof.
  induction d as [|[k0 v0] r IH]; simpl.
  - rewrite list_elem_of_singleton. intros [= -> ->]. by left.
  - destruct (decide (k = k0)) as [->|Hne]; rewrite !elem_of_cons.
    + intros [[= -> ->] | H]; [by left | right; by right].
    + intros [H | H]; [right; by left|].
      destruct (IH H) as [?|?]; [by left | right; by right].
Qed.

End Dict.

(** ** The excerpt loop *)

Section Excerpts.

Variable detect : str -> option string.

Lemma excerpts_fold page_text (d : dict lang str) : ∀ st : dict lang str * dict lang str,
  let r := foldl (lang_step detect page_text) st d in
  (dict_keys st.1 = dict_keys st.2 → dict_keys r.1 = dict_keys r.2)
  ∧ (∀ l, l ∈ dict_keys r.2
          ↔ l ∈ dict_keys st.2
            ∨ ∃ t, (l, t) ∈ d ∧ yields_excerpt detect page_text l t = true)
  ∧ (∀ l para, (l, para) ∈ r.2 →
       (l, para) ∈ st.2
       ∨ ∃ t, (l, t) ∈ d ∧ yields_excerpt detect page_text l t = true
              ∧ para = excerpt page_text t).
Proof.
  induction d as [|[l0 t0] d IH]; intros st; cbv zeta; cbn [foldl].
  - split; [done|]. split.
    + intros l. split; [by left|]. intros [H | (t & Ht & _)]; [done|].
      by apply elem_of_nil in Ht.
    + intros l para H. by left.
  - rewrite lang_step_spec.
    destruct (IH (if yields_excerpt detect page_text l0 t0
                  then (dict_set l0 t0 st.1,
                        dict_set l0 (excerpt page_text t0) st.2)
                  else st)) as (IHk & IHm & IHv).
    destruct (yields_excerpt detect page_text l0 t0) eqn:E; simpl in *.
    + split; [|split].
      * intros Hk. apply IHk. by apply dict_set_keys_eq.
      * intros l. rewrite IHm, dict_set_keys_elem. split.
        -- intros [[-> | H] | (t & Ht & Hy)].
           ++ right. exists t0. split; [left | done].
           ++ by left.
           ++ right. exists t. split; [by right | done].
        -- intros [H | (t & Ht & Hy)]; [left; by right|].
           apply elem_of_cons in Ht as [[= -> ->] | Ht].
           ++ left. by left.
           ++ right. eauto.
      * intros l para H. destruct (IHv l para H) as [H' | (t & Ht & Hy & ->)].
        -- apply dict_set_elem in H' as [[-> ->] | H']; [|by left].
           right. exists t0. split; [left | done].
        -- right. exists t. split; [by right | done].
    + split; [done|]. split.
      * intros l. rewrite IHm. split.
        -- intros [H | (t & Ht & Hy)]; [by left|]. right. exists t.
           split; [by right | done].
        -- intros [H | (t & Ht & Hy)]; [by left|].
           apply elem_of_cons in Ht as [[= -> ->] | Ht]; [congruence|].
           right. eauto.
      * intros l para H. destruct (IHv l para H) as [H' | (t & Ht & Hy & ->)];
          [by left|]. right. exists t. split; [by right | done].
Qed.

(** What [excerpts_for] leaves in the two dictionaries. *)
Lemma excerpts_for_keys page_text tv :
  dict_keys (excerpts_for detect page_text tv).1
  = dict_keys (excerpts_for detect page_text tv).2.
Proof.
  destruct tv as [d|s]; simpl.
  - by apply (excerpts_fold page_text d ([], [])).
  - destruct page_text as [|c r]; [done|].
    by destruct (excerpt (c :: r) s).
Qed.

Lemma excerpts_for_dict_languages page_text d l :
  l ∈ dict_keys (excerpts_for detect page_text (TitleDict d)).2
  ↔ ∃ t, (l, t) ∈ d ∧ yields_excerpt detect page_text l t = true.
Proof.
  simpl. destruct (excerpts_fold page_text d ([], [])) as (_ & Hm & _).
  rewrite Hm. simpl. split; [|by right].
  intros [H | H]; [by apply elem_of_nil in H | done].
Qed.

Lemma excerpts_for_dict_values page_text d l para :
  (l, para) ∈ (excerpts_for detect page_text (TitleDict d)).2 →
  ∃ t, (l, t) ∈ d ∧ yields_excerpt detect page_text l t = true
       ∧ para = excerpt page_text t.
Proof.
  simpl. destruct (excerpts_fold page_text d ([], [])) as (_ & _ & Hv).
  intros H. destruct (Hv l para H) as [H' | H']; [by apply elem_of_nil in H' | done].
Qed.

(** The body of the entry loop appends at most one section, whose two
    dictionaries are those of [excerpts_for]. *)
Lemma elem_of_entry_sections enable kws doc page_texts page_num tv s :
  s ∈ entry_sections detect enable kws doc page_texts page_num tv →
  let st := excerpts_for detect (page_text_of page_texts page_num) tv in
  s = {| document := doc; page_number := page_num;
         section_title := st.1; refined_text := st.2 |}
  ∧ st.2 ≠ []
  ∧ (enable = true →
     is_relevant_section (join [space] (dict_values st.2)) kws = true).
Proof.
  unfold entry_sections.
  destruct (excerpts_for detect (page_text_of page_texts page_num) tv) as [t r].
  simpl. destruct enable; simpl.
  - destruct (is_relevant_section (join [space] (dict_values r)) kws) eqn:E; simpl.
    + destruct r as [|x r]; [by intros H; apply elem_of_nil in H|].
      intros ->%list_elem_of_singleton. done.
    + by intros H; apply elem_of_nil in H.
  - destruct r as [|x r]; [by intros H; apply elem_of_nil in H|].
    intros ->%list_elem_of_singleton. done.
Qed.

End Excerpts.

(** ** Where sections come from *)

Section Sections.

Variable detect : str -> option string.
Variable wordninja_split : str -> list str.
Variable trivial_tokenize : option (str -> lang -> list str).

Lemma elem_of_document_sections enable kws pdf secs s :
  document_sections detect wordninja_split trivial_tokenize enable kws pdf = Some secs →
  s ∈ secs →
  ∃ page_texts page_num d,
    s ∈ entry_sections detect enable kws (file_name pdf) page_texts page_num (TitleDict d).
Proof.
  unfold document_sections. destruct (fitz_open pdf) as [doc|] eqn:E; [|discriminate].
  intros [= <-] Hs. apply list_elem_of_In, in_flat_map in Hs as (entry & _ & Hs).
  apply list_elem_of_In in Hs. eauto.
Qed.

Lemma elem_of_all_sections enable kws pdfs : ∀ secs s,
  all_sections_of detect wordninja_split trivial_tokenize enable kws pdfs = Some secs →
  s ∈ secs →
  ∃ pdf page_texts page_num d,
    pdf ∈ pdfs
    ∧ s ∈ entry_sections detect enable kws (file_name pdf) page_texts page_num (TitleDict d).
Proof.
  induction pdfs as [|pdf rest IH]; intros secs s; simpl.
  - intros [= <-] Hs. by apply elem_of_nil in Hs.
  - destruct (document_sections _ _ _ _ _ pdf) as [here|] eqn:Ehere; [|discriminate].
    destruct (all_sections_of _ _ _ _ _ rest) as [later|] eqn:Elater; [|discriminate].
    intros [= <-] Hs. apply elem_of_app in Hs as [Hs | Hs].
    + destruct (elem_of_document_sections _ _ _ _ _ Ehere Hs) as (pt & pn & d & H).
      exists pdf, pt, pn, d. split; [left | done].
    + destruct (IH later s eq_refl Hs) as (pdf' & pt & pn & d & Hin & H).
      exists pdf', pt, pn, d. split; [by right | done].
Qed.

Variable encode : str -> list Q.
Variable now : str.

(** The two output lists are read off the ranked list, which is a
    rearrangement of the retained sections. *)
Lemma run_r1b_outputs enable kws pdfs persona_txt job_txt result :
  run_r1b detect wordninja_split trivial_tokenize encode now enable kws pdfs
          persona_txt job_txt = Some result →
  ∃ all_sections ranked,
    all_sections_of detect wordninja_split trivial_tokenize enable kws pdfs
    = Some all_sections
    ∧ map scored_section ranked ≡ₚ all_sections
    ∧ extracted_sections result = output_sections ranked
    ∧ sub_section_analysis result = sub_sections ranked.
Proof.
  unfold run_r1b.
  destruct (all_sections_of _ _ _ _ _ pdfs) as [all|] eqn:E; [|discriminate].
  intros [= <-]. eexists all, _. split; [done|]. split; [|done].
  unfold rank_sections, sorted_desc_by. rewrite sorted_by_perm.
  unfold score_sections. rewrite map_map. simpl. by rewrite map_id.
Qed.

End Sections.

Lemma yields_excerpt_spec detect page_text l title_text :
  yields_excerpt detect page_text l title_text = true
  ↔ page_text ≠ []
    ∧ (detect_language detect page_text = l ∨ l = en)
    ∧ excerpt page_text title_text ≠ [].
Proof.
  unfold yields_excerpt. destruct page_text as [|c r].
  - split; [discriminate | by intros [? _]].
  - rewrite andb_true_iff, orb_true_iff, !bool_decide_eq_true.
    destruct (excerpt (c :: r) title_text); split.
    + intros [_ ?]. done.
    + intros (_ & _ & ?). done.
    + intros [? _]. done.
    + intros (_ & ? & _). done.
Qed.

(** With the gate off a heading is dropped exactly when no language of its
    text yields an excerpt. *)
Lemma entry_sections_nil detect kws doc page_texts page_num d :
  entry_sections detect false kws doc page_texts page_num (TitleDict d) = []
  ↔ ∀ l t, (l, t) ∈ d →
      yields_excerpt detect (page_text_of page_texts page_num) l t = false.
Proof.
  unfold entry_sections.
  pose proof (excerpts_for_dict_languages detect
                (page_text_of page_texts page_num) d) as Hlang.
  destruct (excerpts_for detect (page_text_of page_texts page_num) (TitleDict d))
    as [ts rs] eqn:E. simpl in Hlang. cbn [andb]. split.
  - destruct rs as [|x rs]; [|discriminate]. intros _ l t Ht.
    destruct (yields_excerpt detect (page_text_of page_texts page_num) l t) eqn:Ey;
      [|done].
    assert (l ∈ dict_keys (@nil (lang * str))) as Hin by (apply Hlang; eauto).
    by apply elem_of_nil in Hin.
  - intros Hnone. destruct rs as [|[l para] rs]; [done|].
    destruct (proj1 (Hlang l)) as (t & Ht & Hy); [left|].
    rewrite (Hnone l t Ht) in Hy. discriminate.
Qed.

(** ** The excerpt of a heading *)

(** C4 (amended).  For a heading and a language of its text mapping, the
    excerpt is anchored at the first place where the title occurs in the
    page's raw text, or at 0 when it does not occur; it is the 200-character
    window from there, trimmed, so it has at most 200 characters.  A language
    gets an entry exactly when the page text is not empty, the page's
    detected language is that language or the language is en, and the
    excerpt is not empty; a heading is dropped exactly when no language
    yields an excerpt.  In particular, when the title is not found the
    excerpt is the trimmed first 200 characters of the page text, which is
    empty exactly when those characters are all white space. *)
Theorem excerpt_anchor_and_section_recording :
  ∀ (detect : str -> option string) (page_text title_text : str) (l : lang)
    (st : dict lang str * dict lang str) (kws : list str) (doc : str)
    (page_texts : list str) (page_num : positive) (d : dict lang str),
    (∀ i, find title_text page_text = Some i →
          (∃ r, drop i page_text = title_text ++ r)
          ∧ (∀ j, j < i → ¬ ∃ r, drop j page_text = title_text ++ r)
          ∧ excerpt page_text title_text = strip (take 200 (drop i page_text)))
    ∧ (find title_text page_text = None →
       (∀ j, ¬ ∃ r, drop j page_text = title_text ++ r)
       ∧ excerpt page_text title_text = strip (take 200 page_text)
       ∧ (excerpt page_text title_text = []
          ↔ forallb is_space (take 200 page_text) = true))
    ∧ length (excerpt page_text title_text) ≤ 200
    ∧ (yields_excerpt detect page_text l title_text = true
       ↔ page_text ≠ []
         ∧ (detect_language detect page_text = l ∨ l = en)
         ∧ excerpt page_text title_text ≠ [])
    ∧ lang_step detect page_text st (l, title_text)
      = (if yields_excerpt detect page_text l title_text
         then (dict_set l title_text st.1,
               dict_set l (excerpt page_text title_text) st.2)
         else st)
    ∧ (entry_sections detect false kws doc page_texts page_num (TitleDict d) = []
       ↔ ∀ l' t, (l', t) ∈ d →
           yields_excerpt detect (page_text_of page_texts page_num) l' t = false)
    ∧ (∀ s l' para,
         s ∈ entry_sections detect false kws doc page_texts page_num (TitleDict d) →
         (l', para) ∈ refined_text s →
         ∃ t, (l', t) ∈ d
              ∧ yields_excerpt detect (page_text_of page_texts page_num) l' t = true
              ∧ para = excerpt (page_text_of page_texts page_num) t).
Proof.
  intros detect page_text title_text l st kws doc page_texts page_num d.
  split; [|split; [|split; [|split; [|split; [|split]]]]].
  - intros i Hi. destruct (find_Some _ _ _ Hi) as [Hat Hlow]. split; [|split].
    + by apply starts_with_spec.
    + intros j Hj Hocc. apply starts_with_spec in Hocc. rewrite Hlow in Hocc; done.
    + by apply excerpt_found.
  - intros Hnone. split; [|split].
    + intros j Hocc. apply starts_with_spec in Hocc.
      rewrite (find_None _ _ Hnone) in Hocc. done.
    + by apply excerpt_not_found.
    + rewrite (excerpt_not_found _ _ Hnone). apply strip_nil.
  - apply excerpt_length.
  - apply yields_excerpt_spec.
  - apply lang_step_spec.
  - apply entry_sections_nil.
  - intros s l' para Hs Hpara.
    apply elem_of_entry_sections in Hs as (-> & _ & _). simpl in Hpara.
    by apply excerpts_for_dict_values.
Qed.

Lemma excerpt_anchor_and_section_recording_witness :
  excerpt (lit "Overview of methods") (lit "Methods")
  = strip (take 200 (lit "Overview of methods")).
Proof.
  pose proof (excerpt_anchor_and_section_recording always_en
                (lit "Overview of methods") (lit "Methods") en ([], []) keywords
                (lit "a.pdf") [lit "Overview of methods"] 1 [(en, lit "Methods")])
    as (_ & Hnone & _).
  apply Hnone. vm_compute. reflexivity.
Defined.

(** C4 as stated fails: a page whose text is one space is not empty and does
    not contain the title, yet its excerpt is empty and the heading is
    dropped. *)
Lemma whitespace_page_counterexample :
  ¬ (∀ page_text title_text : str,
       page_text ≠ [] → find title_text page_text = None →
       excerpt page_text title_text ≠ []).
Proof.
  intros H. apply (H (lit " ") (lit "Intro")).
  - discriminate.
  - vm_compute. reflexivity.
  - vm_compute. reflexivity.
Qed.

(** ** Languages of a section *)

(** C10.  Every section in the ranker's list has the same languages, in the
    same order, in [section_title] and in [refined_text], and at least one;
    a language of the heading's text mapping is among them exactly when it
    yielded a non-empty excerpt. *)
Theorem section_title_and_refined_text_share_languages :
  ∀ (detect : str -> option string) (wordninja_split : str -> list str)
    (trivial_tokenize : option (str -> lang -> list str))
    (enable : bool) (kws : list str),
    (∀ pdfs secs s,
       all_sections_of detect wordninja_split trivial_tokenize enable kws pdfs
       = Some secs →
       s ∈ secs →
       dict_keys (section_title s) = dict_keys (refined_text s)
       ∧ dict_keys (refined_text s) ≠ [])
    ∧ (∀ doc page_texts page_num tv s,
         s ∈ entry_sections detect enable kws doc page_texts page_num tv →
         dict_keys (section_title s) = dict_keys (refined_text s)
         ∧ dict_keys (refined_text s) ≠ [])
    ∧ (∀ doc page_texts page_num d s l,
         s ∈ entry_sections detect enable kws doc page_texts page_num (TitleDict d) →
         (l ∈ dict_keys (section_title s)
          ↔ ∃ t, (l, t) ∈ d
                 ∧ (page_text_of page_texts page_num ≠ []
                    ∧ (detect_language detect (page_text_of page_texts page_num) = l
                       ∨ l = en)
                    ∧ excerpt (page_text_of page_texts page_num) t ≠ []))).
Proof.
  intros detect wordninja_split trivial_tokenize enable kws.
  assert (Hentry : ∀ doc page_texts page_num tv s,
            s ∈ entry_sections detect enable kws doc page_texts page_num tv →
            dict_keys (section_title s) = dict_keys (refined_text s)
            ∧ dict_keys (refined_text s) ≠ []).
  { intros doc page_texts page_num tv s Hs.
    apply elem_of_entry_sections in Hs as (-> & Hne & _). simpl. split.
    - apply excerpts_for_keys.
    - destruct (excerpts_for detect (page_text_of page_texts page_num) tv).2;
        [done | discriminate]. }
  split; [|split].
  - intros pdfs secs s Hall Hs.
    destruct (elem_of_all_sections _ _ _ _ _ _ _ _ Hall Hs)
      as (pdf & pt & pn & d & _ & Hin).
    by eapply Hentry.
  - exact Hentry.
  - intros doc page_texts page_num d s l Hs.
    destruct (Hentry _ _ _ _ _ Hs) as [Hkeys _]. rewrite Hkeys.
    apply elem_of_entry_sections in Hs as (-> & _ & _). cbn [refined_text].
    rewrite excerpts_for_dict_languages.
    by setoid_rewrite yields_excerpt_spec.
Qed.

Lemma section_title_and_refined_text_share_languages_witness :
  match gated_sections with
  | Some (s :: _) =>
      dict_keys (section_title s) = dict_keys (refined_text s)
      ∧ dict_keys (refined_text s) ≠ []
  | _ => False
  end.
Proof.
  destruct gated_sections as [[|s secs]|] eqn:E;
    [vm_compute in E; discriminate | | vm_compute in E; discriminate].
  apply (proj1 (section_title_and_refined_text_share_languages
                  always_en one_word None true [lit "drug"])
               [drug_pdf; summary_pdf] (s :: secs) s E).
  left.
Defined.

(** ** The keyword gate *)

Lemma is_relevant_section_spec text kws :
  is_relevant_section text kws = true
  ↔ ∃ kw, kw ∈ kws ∧ contains kw (lower text) = true.
Proof.
  unfold is_relevant_section. rewrite existsb_exists.
  by setoid_rewrite list_elem_of_In.
Qed.

(** C7.  With the keyword gate on, a section whose concatenated excerpt
    text, lower-cased as the gate does, contains none of the keywords is
    absent from [all_sections], and so from the output lists, rather than
    ranked low: every section that is kept contains a keyword.  With the
    keyword list ["drug"] a section whose concatenated excerpt has no "drug"
    is not in [all_sections].  The gate is off by default. *)
Theorem keyword_gate_drops_irrelevant_sections :
  ∀ (detect : str -> option string) (wordninja_split : str -> list str)
    (trivial_tokenize : option (str -> lang -> list str))
    (encode : str -> list Q) (now : str) (kws : list str) (pdfs : list PdfFile),
    (∀ secs s,
       all_sections_of detect wordninja_split trivial_tokenize true kws pdfs
       = Some secs →
       (∀ kw, kw ∈ kws →
              contains kw (lower (join [space] (dict_values (refined_text s))))
              = false) →
       s ∉ secs)
    ∧ (∀ persona_txt job_txt result ss,
         run_r1b detect wordninja_split trivial_tokenize encode now true kws pdfs
                 persona_txt job_txt = Some result →
         ss ∈ sub_section_analysis result →
         ∃ kw, kw ∈ kws
               ∧ contains kw (lower (join [space] (dict_values (ss_refined_text ss))))
                 = true)
    ∧ (∀ secs s,
         all_sections_of detect wordninja_split trivial_tokenize true [lit "drug"] pdfs
         = Some secs →
         contains (lit "drug") (lower (join [space] (dict_values (refined_text s))))
         = false →
         s ∉ secs)
    ∧ ENABLE_KEYWORD_FILTER = false
    ∧ main_r1b detect wordninja_split trivial_tokenize encode now
      = run_r1b detect wordninja_split trivial_tokenize encode now false keywords.
Proof.
  intros detect wordninja_split trivial_tokenize encode now kws pdfs.
  assert (Hgate : ∀ kws' secs s,
            all_sections_of detect wordninja_split trivial_tokenize true kws' pdfs
            = Some secs →
            s ∈ secs →
            ∃ kw, kw ∈ kws'
                  ∧ contains kw (lower (join [space] (dict_values (refined_text s))))
                    = true).
  { intros kws' secs s Hall Hs.
    destruct (elem_of_all_sections _ _ _ _ _ _ _ _ Hall Hs)
      as (pdf & pt & pn & d & _ & Hin).
    apply elem_of_entry_sections in Hin as (-> & _ & Hrel). simpl.
    apply is_relevant_section_spec. by apply Hrel. }
  split; [|split; [|split; [|split]]].
  - intros secs s Hall Hnone Hs.
    destruct (Hgate _ _ _ Hall Hs) as (kw & Hkw & Hin).
    rewrite (Hnone kw Hkw) in Hin. discriminate.
  - intros persona_txt job_txt result ss Hrun Hss.
    destruct (run_r1b_outputs _ _ _ _ _ _ _ _ _ _ _ Hrun)
      as (all & ranked & Hall & Hperm & _ & Hsub).
    rewrite Hsub in Hss. unfold sub_sections in Hss.
    apply list_elem_of_fmap in Hss as (sc & -> & Hsc). simpl.
    apply (Hgate kws all); [done|]. rewrite <- Hperm.
    apply list_elem_of_fmap. eauto.
  - intros secs s Hall Hnone Hs.
    destruct (Hgate _ _ _ Hall Hs) as (kw & Hkw & Hin).
    apply list_elem_of_singleton in Hkw as ->. congruence.
  - reflexivity.
  - reflexivity.
Qed.

Lemma keyword_gate_drops_irrelevant_sections_witness :
  match gated_sections with
  | Some secs =>
      {| document := lit "summary.pdf"; page_number := 1;
         section_title := [(en, lit "Conclusions")];
         refined_text := [(en, lit "Conclusions We summarise the findings.")] |}
      ∉ secs
  | None => False
  end.
Proof.
  destruct gated_sections as [secs|] eqn:E; [|vm_compute in E; discriminate].
  apply (proj1 (keyword_gate_drops_irrelevant_sections
                  always_en one_word None encode_length
                  (lit "2026-01-01T00:00:00") [lit "drug"]
                  [drug_pdf; summary_pdf]) secs _ E).
  intros kw Hkw. apply list_elem_of_singleton in Hkw as ->.
  vm_compute. reflexivity.
Defined.

(** ** The two output lists *)

(** C8.  In every ranking run the two output lists have the same length and
    the entries at each index have the same document and page number. *)
Theorem extracted_sections_parallel_to_sub_section_analysis :
  ∀ (detect : str -> option string) (wordninja_split : str -> list str)
    (trivial_tokenize : option (str -> lang -> list str))
    (encode : str -> list Q) (now : str) (enable : bool) (kws : list str)
    (pdfs : list PdfFile) (persona_txt job_txt : option str) (result : RankedResult),
    run_r1b detect wordninja_split trivial_tokenize encode now enable kws pdfs
            persona_txt job_txt = Some result →
    length (extracted_sections result) = length (sub_section_analysis result)
    ∧ ∀ i es ss,
        extracted_sections result !! i = Some es →
        sub_section_analysis result !! i = Some ss →
        es_document es = ss_document ss ∧ es_page_number es = ss_page_number ss.
Proof.
  intros detect wordninja_split trivial_tokenize encode now enable kws pdfs
         persona_txt job_txt result Hrun.
  destruct (run_r1b_outputs _ _ _ _ _ _ _ _ _ _ _ Hrun)
    as (all & ranked & _ & _ & -> & ->).
  unfold output_sections, sub_sections. split.
  - by rewrite length_imap, length_map.
  - intros i es ss Hes Hss. rewrite list_lookup_imap in Hes.
    change (map ?f ranked) with (f <$> ranked) in Hss.
    rewrite list_lookup_fmap in Hss.
    destruct (ranked !! i) as [sc|]; [|discriminate].
    simpl in Hes, Hss. injection Hes as <-. injection Hss as <-. done.
Qed.

Lemma extracted_sections_parallel_to_sub_section_analysis_witness :
  match ranking_run false with
  | Some result =>
      length (extracted_sections result) = length (sub_section_analysis result)
  | None => False
  end.
Proof.
  destruct (ranking_run false) as [result|] eqn:E; [|vm_compute in E; discriminate].
  apply (extracted_sections_parallel_to_sub_section_analysis
           always_en one_word None encode_length (lit "2026-01-01T00:00:00")
           false [lit "drug"] [drug_pdf; summary_pdf] None None result E).
Defined.

(** ** Unreadable documents *)

(** C9.  When the layout provider cannot open the input, outline extraction
    returns the empty outline; the failure does not reach the caller. *)
Theorem unreadable_document_gives_empty_outline :
  ∀ (detect : str -> option string) (wordninja_split : str -> list str)
    (trivial_tokenize : option (str -> lang -> list str)) (pdf : PdfFile),
    fitz_open pdf = None →
    extract_document_info detect wordninja_split trivial_tokenize pdf
    = {| title := []; outline := []; tables := [] |}.
Proof.
  intros detect wordninja_split trivial_tokenize pdf Hopen.
  unfold extract_document_info. by rewrite Hopen.
Qed.

Lemma unreadable_document_gives_empty_outline_witness :
  extract_document_info always_en one_word None unreadable
  = {| title := []; outline := []; tables := [] |}.
Proof.
  apply (unreadable_document_gives_empty_outline always_en one_word None unreadable).
  reflexivity.
Defined.

(** ** Ranking *)

Lemma insert_by_map {A B} (f : A -> B) (before : A -> A -> bool)
    (before' : B -> B -> bool) x l :
  (∀ a b, before' (f a) (f b) = before a b) →
  insert_by before' (f x) (map f l) = map f (insert_by before x l).
Proof.
  intros Hf. induction l as [|y r IH]; simpl; [done|].
  rewrite Hf. destruct (before x y); simpl; [done|]. by rewrite IH.
Qed.

Lemma sorted_by_map {A B} (f : A -> B) (before : A -> A -> bool)
    (before' : B -> B -> bool) l :
  (∀ a b, before' (f a) (f b) = before a b) →
  sorted_by before' (map f l) = map f (sorted_by before l).
Proof.
  intros Hf. induction l as [|x r IH]; simpl; [done|].
  rewrite IH. by apply insert_by_map.
Qed.

Lemma output_sections_ranks ranked :
  map importance_rank (output_sections ranked) = seq 1 (length ranked).
Proof.
  unfold output_sections. change (map ?f ?l) with (f <$> l).
  rewrite fmap_imap. simpl.
  assert (H : ∀ (l : list Scored) k,
            imap (fun i _ => k + i + 1) l = seq (k + 1) (length l)).
  { induction l as [|x l IH]; intros k; simpl; [done|].
    f_equal; [lia|]. replace (S (k + 1)) with (S k + 1) by lia.
    rewrite <- (IH (S k)). apply imap_ext. intros. simpl. lia. }
  apply (H ranked 0).
Qed.

(** C5.  The ranking is the stable sort of the scored sections by relevance
    score, descending: it rearranges them, scores never increase along it,
    sections with equal scores keep the order in which they were found, the
    document a section came from plays no part, and the section at index [i]
    gets rank [i + 1]. *)
Theorem ranking_is_stable_sort_by_score_descending :
  ∀ scored : list Scored,
    rank_sections scored ≡ₚ scored
    ∧ StronglySorted (fun a b => relevance_score b <= relevance_score a)%Q
                     (rank_sections scored)
    ∧ (∀ q : Q,
         List.filter (fun s => Qeq_bool (relevance_score s) q) (rank_sections scored)
         = List.filter (fun s => Qeq_bool (relevance_score s) q) scored)
    ∧ (∀ f : str -> str,
         rank_sections (map (rename_document f) scored)
         = map (rename_document f) (rank_sections scored))
    ∧ map importance_rank (output_sections (rank_sections scored))
      = seq 1 (length scored).
Proof.
  intros scored. split; [|split; [|split; [|split]]].
  - apply sorted_by_perm.
  - apply sorted_desc_by_sorted.
  - intros q. apply sorted_by_stable. intros x y Hx Hy.
    apply Qeq_bool_iff in Hx, Hy. apply Qle_bool_iff. rewrite Hx, Hy. apply Qle_refl.
  - intros f. apply sorted_by_map. done.
  - rewrite output_sections_ranks. f_equal.
    apply Permutation_length, sorted_by_perm.
Qed.

(** * Further properties *)

(** ** Trimming *)

Lemma lstrip_split s :
  ∃ pre, s = pre ++ lstrip s ∧ forallb is_space pre = true.
Proof.
  induction s as [|c r (pre & Hs & Hpre)]; simpl.
  - by exists [].
  - destruct (is_space c) eqn:E.
    + exists (c :: pre). simpl. rewrite E, Hpre. split; [by f_equal | done].
    + by exists [].
Qed.

Lemma lstrip_fixed s : (∀ c r, s = c :: r → is_space c = false) → lstrip s = s.
Proof.
  destruct s as [|c r]; [done|]. intros H. simpl. by rewrite (H c r eq_refl).
Qed.

Lemma strip_split s :
  ∃ pre post, s = pre ++ strip s ++ post
              ∧ forallb is_space pre = true ∧ forallb is_space post = true.
Proof.
  destruct (lstrip_split s) as (pre & Hs & Hpre).
  destruct (lstrip_split (rev (lstrip s))) as (post & Hr & Hpost).
  exists pre, (rev post). split; [|split; [done | by rewrite forallb_rev]].
  unfold strip, rstrip. rewrite <- rev_app_distr, <- Hr, rev_involutive. done.
Qed.

Lemma strip_trimmed s : trimmed (strip s).
Proof.
  assert (Hlast : ∀ t r c, rstrip t = r ++ [c] → is_space c = false).
  { intros t r c H. unfold rstrip in H.
    apply (f_equal (@rev N)) in H. rewrite rev_involutive, rev_app_distr in H.
    simpl in H. by apply lstrip_head in H. }
  split; [|apply Hlast].
  intros c r H. destruct (lstrip s) as [|c0 r0] eqn:E.
  - unfold strip in H. rewrite E in H. discriminate.
  - pose proof (lstrip_head _ _ _ E) as Hc0.
    destruct (lstrip_split (rev (c0 :: r0))) as (post & Hr & _).
    apply (f_equal (@rev N)) in Hr. rewrite rev_involutive, rev_app_distr in Hr.
    unfold strip, rstrip in H. rewrite E in H. rewrite H in Hr. simpl in Hr.
    injection Hr as -> _. done.
Qed.

Lemma trimmed_strip s : trimmed s → strip s = s.
Proof.
  intros [Hhead Hlast]. unfold strip, rstrip. rewrite (lstrip_fixed s Hhead).
  rewrite lstrip_fixed; [apply rev_involutive|].
  intros c r H. apply (Hlast (rev r) c).
  apply (f_equal (@rev N)) in H. rewrite rev_involutive in H. done.
Qed.

Lemma strip_idempotent s : strip (strip s) = strip s.
Proof. apply trimmed_strip, strip_trimmed. Qed.

(** ** [clean_text] *)

Lemma collapse_ws_nonspace c r :
  is_space c = false → collapse_ws (c :: r) = c :: collapse_ws r.
Proof. intros H. cbn [collapse_ws]. by rewrite H. Qed.

Lemma collapse_ws_space c r :
  is_space c = true →
  collapse_ws (c :: r)
  = match r with
    | c' :: _ => if is_space c' then collapse_ws r else space :: collapse_ws r
    | [] => [space]
    end.
Proof. intros H. cbn [collapse_ws]. by rewrite H. Qed.

Lemma single_spaced_collapse s : single_spaced (collapse_ws s) = true.
Proof.
  induction s as [|c r IH]; [done|].
  destruct (is_space c) eqn:Ec.
  - rewrite collapse_ws_space by done. destruct r as [|c' r']; [done|].
    destruct (is_space c') eqn:Ec'; [done|].
    rewrite collapse_ws_nonspace in * by done.
    cbn [single_spaced] in *. rewrite Ec' in *. exact IH.
  - rewrite collapse_ws_nonspace by done. cbn [single_spaced]. by rewrite Ec.
Qed.

Lemma single_spaced_suffix a t : single_spaced (a ++ t) = true → single_spaced t = true.
Proof.
  induction a as [|c a IH]; [done|]. simpl. intros [_ H]%andb_prop. by apply IH.
Qed.

Lemma single_spaced_prefix t b : single_spaced (t ++ b) = true → single_spaced t = true.
Proof.
  induction t as [|c t IH]; [done|]. simpl. intros [Hc H]%andb_prop.
  rewrite (IH H), andb_true_r.
  destruct (is_space c); [|done].
  apply andb_prop in Hc as [Hc1 Hc2]. rewrite Hc1. simpl.
  destruct t as [|c' t']; [done | exact Hc2].
Qed.

Lemma single_spaced_strip s : single_spaced s = true → single_spaced (strip s) = true.
Proof.
  intros H. destruct (strip_split s) as (pre & post & Hs & _).
  rewrite Hs in H. apply single_spaced_suffix in H. by apply single_spaced_prefix in H.
Qed.

Lemma collapse_fixed t :
  single_spaced t = true → (∀ r c, t = r ++ [c] → is_space c = false) →
  collapse_ws t = t.
Proof.
  induction t as [|c r IH]; [done|]. intros Hss Hlast.
  simpl in Hss. apply andb_prop in Hss as [Hc Hr].
  assert (Hr' : collapse_ws r = r).
  { apply IH; [done|]. intros r0 c0 ->. apply (Hlast (c :: r0) c0). done. }
  destruct (is_space c) eqn:Ec.
  - rewrite collapse_ws_space by done.
    apply andb_prop in Hc as [Hc1 Hc2]. apply N.eqb_eq in Hc1 as ->.
    destruct r as [|c' r'].
    + specialize (Hlast [] space eq_refl). congruence.
    + apply negb_true_iff in Hc2. rewrite Hc2. by rewrite Hr'.
  - rewrite collapse_ws_nonspace by done. by rewrite Hr'.
Qed.

Lemma clean_text_single_spaced s : single_spaced (clean_text s) = true.
Proof. apply single_spaced_strip, single_spaced_collapse. Qed.

Lemma clean_text_trimmed s : trimmed (clean_text s).
Proof. apply strip_trimmed. Qed.

Lemma clean_text_fixed t :
  single_spaced t = true → trimmed t → clean_text t = t.
Proof.
  intros Hss Htr. unfold clean_text.
  rewrite collapse_fixed; [by apply trimmed_strip | done | apply Htr].
Qed.

Lemma single_spaced_lookup t i c :
  single_spaced t = true → t !! i = Some c → is_space c = true →
  c = space ∧ ∀ c', t !! S i = Some c' → is_space c' = false.
Proof.
  revert i. induction t as [|c0 r IH]; intros i Hss Hi Hc; [done|].
  simpl in Hss. apply andb_prop in Hss as [Hc0 Hr].
  destruct i as [|i]; simpl in Hi.
  - injection Hi as ->. rewrite Hc in Hc0. apply andb_prop in Hc0 as [H1 H2].
    apply N.eqb_eq in H1. split; [done|].
    intros c' Hc'. destruct r as [|c1 r1]; [done|]. simpl in Hc'.
    injection Hc' as ->. by apply negb_true_iff.
  - by apply IH.
Qed.

(** X1.  Cleaning is idempotent; cleaned text is trimmed, and every white
    space character in it is a single space between other characters. *)
Theorem clean_text_normal_form :
  ∀ s : str,
    clean_text (clean_text s) = clean_text s
    ∧ strip (clean_text s) = clean_text s
    ∧ trimmed (clean_text s)
    ∧ (∀ i c, clean_text s !! i = Some c → is_space c = true →
              c = space ∧ ∀ c', clean_text s !! S i = Some c' → is_space c' = false).
Proof.
  intros s. split; [|split; [|split]].
  - apply clean_text_fixed; [apply clean_text_single_spaced | apply clean_text_trimmed].
  - apply trimmed_strip, clean_text_trimmed.
  - apply clean_text_trimmed.
  - intros i c. apply single_spaced_lookup, clean_text_single_spaced.
Qed.

(** ** The span collector *)

Lemma elem_of_flat_map {A B} (f : A -> list B) (l : list A) (y : B) :
  y ∈ flat_map f l ↔ ∃ x, x ∈ l ∧ y ∈ f x.
Proof.
  rewrite list_elem_of_In, in_flat_map. setoid_rewrite list_elem_of_In. done.
Qed.

Lemma elem_of_concat {A} (ls : list (list A)) (x : A) :
  x ∈ concat ls ↔ ∃ l, x ∈ l ∧ l ∈ ls.
Proof.
  rewrite list_elem_of_In, in_concat. split.
  - intros (l & Hl & Hx). exists l. by rewrite !list_elem_of_In.
  - intros (l & Hx & Hl). exists l. by rewrite <- !list_elem_of_In.
Qed.

Lemma elem_of_collect_page page_num blocks s :
  s ∈ collect_page page_num blocks
  ↔ ∃ b line span,
      b ∈ blocks ∧ block_type b = 0%Z ∧ line ∈ block_lines b ∧ span ∈ line
      ∧ clean_text (raw_text span) ≠ []
      ∧ s = {| span_text := clean_text (raw_text span); span_size := raw_size span;
               span_font := raw_font span; span_is_bold := is_bold (raw_font span);
               span_origin := raw_origin span; span_bbox := raw_bbox span;
               span_page := Pos.of_succ_nat page_num |}.
Proof.
  unfold collect_page. rewrite elem_of_flat_map. split.
  - intros (b & Hb & Hs). destruct (block_type b =? 0)%Z eqn:Et;
      [|by apply elem_of_nil in Hs].
    apply Z.eqb_eq in Et.
    apply elem_of_flat_map in Hs as (line & Hline & Hs).
    apply elem_of_flat_map in Hs as (span & Hspan & Hs).
    exists b, line, span. repeat (split; [done|]).
    destruct (clean_text (raw_text span)) as [|c r] eqn:E;
      [by apply elem_of_nil in Hs|].
    apply list_elem_of_singleton in Hs. done.
  - intros (b & line & span & Hb & Et & Hline & Hspan & Hne & ->).
    exists b. split; [done|]. apply Z.eqb_eq in Et. rewrite Et.
    apply elem_of_flat_map. exists line. split; [done|].
    apply elem_of_flat_map. exists span. split; [done|].
    destruct (clean_text (raw_text span)) as [|c r] eqn:E; [done|].
    by apply list_elem_of_singleton.
Qed.

Lemma elem_of_collect_spans document s :
  s ∈ collect_spans document
  ↔ ∃ i page blocks,
      document !! i = Some page ∧ get_blocks page = Some blocks
      ∧ s ∈ collect_page i blocks.
Proof.
  unfold collect_spans. rewrite elem_of_concat. split.
  - intros (l & Hs & Hl). apply elem_of_lookup_imap in Hl as (i & page & -> & Hi).
    destruct (get_blocks page) as [blocks|] eqn:E; [|by apply elem_of_nil in Hs].
    eauto 6.
  - intros (i & page & blocks & Hi & Hb & Hs).
    eexists. split; [|by eapply elem_of_lookup_imap_2]. simpl. by rewrite Hb.
Qed.

(** X2.  Every collected span has non-empty, cleaned text, lies on a page of the
    document that could be read, and is bold exactly when its font name says
    so; a document none of whose pages can be read has no spans. *)
Theorem collected_spans_are_clean_and_on_readable_pages :
  ∀ (document : Document),
    (∀ s, s ∈ collect_spans document →
          span_text s ≠ []
          ∧ clean_text (span_text s) = span_text s
          ∧ 1 ≤ Pos.to_nat (span_page s) ≤ length document
          ∧ span_is_bold s = is_bold (span_font s)
          ∧ ∃ page, document !! (Pos.to_nat (span_page s) - 1) = Some page
                    ∧ get_blocks page ≠ None)
    ∧ ((∀ page, page ∈ document → get_blocks page = None) →
       collect_spans document = []).
Proof.
  intros document. split.
  - intros s Hs. apply elem_of_collect_spans in Hs as (i & page & blocks & Hi & Hb & Hs).
    apply elem_of_collect_page in Hs as (b & line & span & _ & _ & _ & _ & Hne & ->).
    simpl. pose proof (lookup_lt_Some _ _ _ Hi) as Hlt.
    split; [done|]. split; [apply clean_text_normal_form|].
    rewrite SuccNat2Pos.id_succ. split; [lia|]. split; [done|].
    exists page. replace (S i - 1) with i by lia. split; [done | congruence].
  - intros Hnone. destruct (collect_spans document) as [|s l] eqn:E; [done|].
    assert (Hs : s ∈ collect_spans document) by (rewrite E; left).
    apply elem_of_collect_spans in Hs as (i & page & blocks & Hi & Hb & _).
    rewrite (Hnone page) in Hb; [done|]. by eapply list_elem_of_lookup_2.
Qed.

(** ** The median lies in the body band *)

(** X3.  The median body size always lies in the body band [8, 14], whatever
    the spans are. *)
Theorem median_body_size_within_band :
  ∀ spans : list SpanInfo,
    (8 <= median_body_font_size spans)%Q ∧ (median_body_font_size spans <= 14)%Q.
Proof.
  intros spans. unfold median_body_font_size.
  destruct (body_font_sizes spans) as [|x band] eqn:E.
  - simpl. split; by apply Qle_bool_iff.
  - rewrite <- E. destruct (median_of_spec (body_font_sizes spans)) as (Hin & _).
    { rewrite E. discriminate. }
    unfold body_font_sizes in Hin at 2.
    apply list_elem_of_In, filter_In in Hin as [_ Hband].
    by apply in_body_band_spec.
Qed.

(** ** More on the noise filter *)

Lemma pages_containing_perm t (spans spans' : list SpanInfo) :
  spans ≡ₚ spans' → pages_containing t spans = pages_containing t spans'.
Proof.
  intros Hp. unfold pages_containing. f_equal. apply set_eq. intros p.
  rewrite !elem_of_list_to_set, !list_elem_of_fmap.
  by setoid_rewrite Hp.
Qed.

Lemma two_pages_of_count t (spans : list SpanInfo) :
  2 ≤ pages_containing t spans →
  ∃ s1 s2, s1 ∈ spans ∧ s2 ∈ spans
           ∧ clean_text (span_text s1) = t ∧ clean_text (span_text s2) = t
           ∧ span_page s1 ≠ span_page s2.
Proof.
  unfold pages_containing.
  set (X := list_to_set _ : gset positive). intros Hsize.
  assert (Hel : ∀ p, p ∈ X → ∃ s, s ∈ spans ∧ clean_text (span_text s) = t
                                  ∧ span_page s = p).
  { intros p Hp. unfold X in Hp.
    apply elem_of_list_to_set, list_elem_of_fmap in Hp as (s & -> & Hs).
    apply list_elem_of_filter in Hs as [Ht Hs]. eauto. }
  unfold size, set_size in Hsize. simpl in Hsize.
  pose proof (NoDup_elements X) as Hnd.
  destruct (elements X) as [|p1 [|p2 rest]] eqn:E; simpl in Hsize; [lia | lia |].
  destruct (Hel p1) as (s1 & Hs1 & Ht1 & Hp1).
  { apply elem_of_elements. rewrite E. left. }
  destruct (Hel p2) as (s2 & Hs2 & Ht2 & Hp2).
  { apply elem_of_elements. rewrite E. right. left. }
  exists s1, s2. repeat (split; [done|]). rewrite Hp1, Hp2.
  apply NoDup_cons in Hnd as [Hnotin _]. intros ->. apply Hnotin. left.
Qed.

(** X4.  The noise set does not depend on the order of the spans; a noise string
    occurs on at least two different pages, so spans that are all on one
    page give no noise. *)
Theorem noise_needs_two_pages_and_ignores_order :
  ∀ (spans : list SpanInfo) (num_pages : nat),
    (∀ spans', spans ≡ₚ spans' →
       detect_junk_candidates spans' num_pages = detect_junk_candidates spans num_pages)
    ∧ (∀ t, t ∈ detect_junk_candidates spans num_pages →
            ∃ s1 s2, s1 ∈ spans ∧ s2 ∈ spans
                     ∧ clean_text (span_text s1) = t ∧ clean_text (span_text s2) = t
                     ∧ span_page s1 ≠ span_page s2)
    ∧ (∀ p, (∀ s, s ∈ spans → span_page s = p) →
            detect_junk_candidates spans num_pages = ∅).
Proof.
  intros spans num_pages.
  assert (Htwo : ∀ t, t ∈ detect_junk_candidates spans num_pages →
            ∃ s1 s2, s1 ∈ spans ∧ s2 ∈ spans
                     ∧ clean_text (span_text s1) = t ∧ clean_text (span_text s2) = t
                     ∧ span_page s1 ≠ span_page s2).
  { intros t Ht. apply detect_junk_candidates_spec in Ht as [Hc _].
    apply two_pages_of_count. pose proof (threshold_ge_2 num_pages). lia. }
  split; [|split; [exact Htwo|]].
  - intros spans' Hp. apply set_eq. intros t.
    rewrite !detect_junk_candidates_spec. by rewrite (pages_containing_perm _ _ _ Hp).
  - intros p Hall. apply set_eq. intros t. split; [|by intros H%not_elem_of_empty].
    intros Ht. destruct (Htwo t Ht) as (s1 & s2 & H1 & H2 & _ & _ & Hne).
    rewrite (Hall s1 H1), (Hall s2 H2) in Hne. done.
Qed.

(** ** The title *)

Lemma Qgt_bool_iff a b : Qgt_bool a b = true ↔ (b < a)%Q.
Proof.
  unfold Qgt_bool. rewrite negb_true_iff. split.
  - intros H. apply Qnot_le_lt. intros Hle. apply Qle_bool_iff in Hle. congruence.
  - intros H. destruct (Qle_bool a b) eqn:E; [|done].
    apply Qle_bool_iff in E. exfalso. by apply (Qlt_not_le b a).
Qed.

Lemma Qgt_bool_false a b : Qgt_bool a b = false ↔ (a <= b)%Q.
Proof.
  unfold Qgt_bool. rewrite negb_false_iff. apply Qle_bool_iff.
Qed.

Lemma Qeq_bool_false a b : Qeq_bool a b = false ↔ ¬ (a == b)%Q.
Proof.
  split; [apply Qeq_bool_neq|]. intros H. destruct (Qeq_bool a b) eqn:E; [|done].
  by apply Qeq_bool_iff in E.
Qed.

Lemma filter_none {A} (f : A -> bool) (l : list A) :
  (∀ x, x ∈ l → f x = false) → List.filter f l = [].
Proof.
  induction l as [|x l IH]; intros H; [done|]. simpl.
  rewrite (H x) by left. apply IH. intros y Hy. apply H. by right.
Qed.

Lemma title_scan_invariant (spans : list SpanInfo) :
  let st := foldl title_step (0%Q, []) spans in
  (0 <= st.1)%Q
  ∧ (∀ s, s ∈ spans → (span_size s <= st.1)%Q)
  ∧ (st.1 = 0%Q ∨ ∃ s, s ∈ spans ∧ span_size s = st.1)
  ∧ st.2 = map span_text (List.filter (fun s => Qeq_bool (span_size s) st.1) spans).
Proof.
  induction spans as [|x spans IH] using rev_ind; cbv zeta.
  - simpl. split; [apply Qle_refl|]. split; [by intros s H%elem_of_nil|].
    split; [by left | done].
  - rewrite foldl_snoc. cbv zeta in IH.
    destruct (foldl title_step (0%Q, []) spans) as [L cands].
    simpl in IH. destruct IH as (H0 & Hmax & Hwit & Hc).
    unfold title_step. simpl.
    destruct (Qgt_bool (span_size x) L) eqn:Egt; simpl.
    + apply Qgt_bool_iff in Egt. split; [lra|]. split; [|split].
      * intros s [Hs | ->%list_elem_of_singleton]%elem_of_app; [|apply Qle_refl].
        specialize (Hmax s Hs). lra.
      * right. exists x. split; [|done]. apply elem_of_app. right. left.
      * rewrite List.filter_app, map_app. simpl.
        assert (Qeq_bool (span_size x) (span_size x) = true) as ->
          by apply Qeq_bool_iff, Qeq_refl.
        rewrite filter_none; [done|]. intros s Hs. apply Qeq_bool_false.
        specialize (Hmax s Hs). lra.
    + apply Qgt_bool_false in Egt.
      assert (Hmax' : ∀ s, s ∈ spans ++ [x] → (span_size s <= L)%Q).
      { intros s [Hs | ->%list_elem_of_singleton]%elem_of_app; [by apply Hmax | done]. }
      assert (Hwit' : L = 0%Q ∨ ∃ s, s ∈ spans ++ [x] ∧ span_size s = L).
      { destruct Hwit as [?|(s & Hs & ?)]; [by left|]. right. exists s.
        split; [|done]. apply elem_of_app. by left. }
      destruct (Qeq_bool (span_size x) L) eqn:Eeq; simpl.
      * repeat (split; [done|]).
        rewrite List.filter_app, map_app. simpl. rewrite Eeq. simpl. by rewrite Hc.
      * repeat (split; [done|]).
        rewrite List.filter_app, map_app. simpl. rewrite Eeq. simpl.
        by rewrite app_nil_r.
Qed.

(** X5.  The title candidates are the texts, in order, of the spans whose size
    equals the largest size found, which is the largest size of the spans or
    0 when no size exceeds 0. *)
Theorem title_candidates_have_the_largest_size :
  ∀ spans : list SpanInfo,
    (0 <= largest_font_size spans)%Q
    ∧ (∀ s, s ∈ spans → (span_size s <= largest_font_size spans)%Q)
    ∧ (largest_font_size spans = 0%Q
       ∨ ∃ s, s ∈ spans ∧ span_size s = largest_font_size spans)
    ∧ title_candidates spans
      = map span_text
            (List.filter (fun s => Qeq_bool (span_size s) (largest_font_size spans))
                         spans)
    ∧ ((∀ s, s ∈ spans → (span_size s < 0)%Q) → title_candidates spans = []).
Proof.
  intros spans. destruct (title_scan_invariant spans) as (H0 & Hmax & Hwit & Hc).
  fold (largest_font_size spans) in H0, Hmax, Hwit, Hc.
  fold (title_candidates spans) in Hc.
  repeat (split; [done|]). intros Hneg. rewrite Hc, filter_none; [done|].
  intros s Hs. apply Qeq_bool_false. specialize (Hneg s Hs). lra.
Qed.

(** ** Dictionaries keep one entry for each key *)

Lemma dict_set_keys_NoDup {K V} `{EqDecision K} (k : K) (v : V) (d : dict K V) :
  NoDup (dict_keys d) → NoDup (dict_keys (dict_set k v d)).
Proof.
  unfold dict_keys. induction d as [|[k0 v0] r IH]; simpl.
  - intros _. apply NoDup_singleton.
  - intros [Hnotin Hr]%NoDup_cons. destruct (decide (k = k0)) as [->|Hne]; simpl.
    + by apply NoDup_cons.
    + apply NoDup_cons. split; [|by apply IH].
      change (map fst (dict_set k v r)) with (dict_keys (dict_set k v r)).
      rewrite dict_set_keys_elem. intros [?|?]; [congruence | done].
Qed.

Lemma dict_set_last {K V} `{EqDecision K} (k : K) (v : V) (d : dict K V) :
  NoDup (dict_keys d) → (k, v) ∈ dict_set k v d ∧ ∀ v', (k, v') ∈ dict_set k v d → v' = v.
Proof.
  unfold dict_keys. induction d as [|[k0 v0] r IH]; simpl.
  - intros _. split; [left|]. by intros v' [= ->]%list_elem_of_singleton.
  - intros [Hnotin Hr]%NoDup_cons. destruct (decide (k = k0)) as [->|Hne].
    + split; [left|]. intros v' [[= ->] | Hin]%elem_of_cons; [done|].
      exfalso. apply Hnotin. apply list_elem_of_fmap. by exists (k0, v').
    + destruct (IH Hr) as [Hin Huniq]. split; [by right|].
      intros v' [[= ? ?] | Hin']%elem_of_cons; [congruence | by apply Huniq].
Qed.

(** ** Normalised text is trimmed *)

Section Normalize.

Variable detect : str -> option string.
Variable wordninja_split : str -> list str.
Variable trivial_tokenize : option (str -> lang -> list str).

Lemma normalize_trimmed l text :
  strip (normalize wordninja_split trivial_tokenize l text)
  = normalize wordninja_split trivial_tokenize l text.
Proof.
  assert (Hind : strip (clean_indic trivial_tokenize text l)
                 = clean_indic trivial_tokenize text l).
  { unfold clean_indic. destruct trivial_tokenize as [tok|], l; apply strip_idempotent. }
  destruct l; simpl; [|exact Hind..].
  unfold clean_english. destruct text as [|c r]; [done|].
  destruct (contains [space] (c :: r)); apply strip_idempotent.
Qed.

(** ** The title mapping *)

Lemma infer_title_fold (ts : list str) : ∀ title : dict lang str,
  let r := foldl (fun title t =>
                    let l := detect_language detect t in
                    dict_set l (normalize wordninja_split trivial_tokenize l t) title)
                 title ts in
  (NoDup (dict_keys title) → NoDup (dict_keys r))
  ∧ (∀ l, l ∈ dict_keys r
          ↔ l ∈ dict_keys title ∨ ∃ t, t ∈ ts ∧ detect_language detect t = l)
  ∧ (∀ l v, (l, v) ∈ r →
       (l, v) ∈ title
       ∨ ∃ t, t ∈ ts ∧ detect_language detect t = l
              ∧ v = normalize wordninja_split trivial_tokenize l t).
Proof.
  induction ts as [|t ts IH]; intros title; cbv zeta; cbn [foldl].
  - split; [done|]. split.
    + intros l. split; [by left|]. intros [?|(t & Ht & _)]; [done|].
      by apply elem_of_nil in Ht.
    + intros l v H. by left.
  - destruct (IH (dict_set (detect_language detect t)
                    (normalize wordninja_split trivial_tokenize
                       (detect_language detect t) t) title))
      as (IHn & IHk & IHv). cbv zeta in IHn, IHk, IHv.
    split; [|split].
    + intros Hnd. by apply IHn, dict_set_keys_NoDup.
    + intros l. rewrite IHk, dict_set_keys_elem. split.
      * intros [[-> | H] | (t' & Ht' & Hl)].
        -- right. exists t. split; [left | done].
        -- by left.
        -- right. exists t'. split; [by right | done].
      * intros [H | (t' & [-> | Ht']%elem_of_cons & Hl)].
        -- left. by right.
        -- left. by left.
        -- right. eauto.
    + intros l v H. destruct (IHv l v H) as [H' | (t' & Ht' & Hl & Hv)].
      * apply dict_set_elem in H' as [[-> ->] | H']; [|by left].
        right. exists t. split; [left | done].
      * right. exists t'. split; [by right | done].
Qed.

(** The title has one entry for each language detected among the
    candidates, and each entry is the normalised text of a candidate of that
    language; it is empty exactly when there is no candidate. *)
Lemma infer_title_spec (candidates : list str) :
  let title := infer_title detect wordninja_split trivial_tokenize candidates in
  NoDup (dict_keys title)
  ∧ (∀ l, l ∈ dict_keys title ↔ ∃ t, t ∈ candidates ∧ detect_language detect t = l)
  ∧ (∀ l v, (l, v) ∈ title →
       ∃ t, t ∈ candidates ∧ detect_language detect t = l
            ∧ v = normalize wordninja_split trivial_tokenize l t
            ∧ strip v = v)
  ∧ (title = [] ↔ candidates = []).
Proof.
  cbv zeta. unfold infer_title.
  destruct (infer_title_fold (elements (list_to_set candidates : gset str)) [])
    as (Hn & Hk & Hv). cbv zeta in Hn, Hk, Hv.
  assert (Hel : ∀ t, t ∈ elements (list_to_set candidates : gset str) ↔ t ∈ candidates).
  { intros t. by rewrite elem_of_elements, elem_of_list_to_set. }
  split; [apply Hn, NoDup_nil_2|]. split; [|split].
  - intros l. rewrite Hk. setoid_rewrite Hel. split; [|by right].
    intros [H | H]; [by apply elem_of_nil in H | done].
  - intros l v H. destruct (Hv l v H) as [H' | (t & Ht & Hl & ->)];
      [by apply elem_of_nil in H'|].
    exists t. rewrite <- Hel. repeat (split; [done|]). apply normalize_trimmed.
  - split.
    + intros Hnil. destruct candidates as [|t ts]; [done|]. exfalso.
      assert (Hin : detect_language detect t ∈ dict_keys (@nil (lang * str))).
      { rewrite <- Hnil. apply Hk. right. exists t. split; [|done].
        apply Hel. left. }
      by apply elem_of_nil in Hin.
    + intros ->. done.
Qed.

End Normalize.

(** ** Deduplication *)

Lemma dedup_step_entry final_outline h :
  dedup_step final_outline h
  = if bool_decide (entry_of h ∈ final_outline) then final_outline
    else final_outline ++ [entry_of h].
Proof. reflexivity. Qed.

Lemma remove_duplicates_invariant (hs : list Leveled) :
  NoDup (remove_duplicates hs)
  ∧ (∀ e, e ∈ remove_duplicates hs ↔ e ∈ map entry_of hs)
  ∧ remove_duplicates hs `sublist_of` map entry_of hs
  ∧ (NoDup (map entry_of hs) → remove_duplicates hs = map entry_of hs).
Proof.
  unfold remove_duplicates.
  induction hs as [|h hs (Hnd & Hel & Hsub & Hid)] using rev_ind.
  - simpl. split; [apply NoDup_nil_2|]. split; [by intros e|].
    split; [apply sublist_nil_l | done].
  - rewrite foldl_snoc, map_app, dedup_step_entry. simpl.
    destruct (bool_decide (entry_of h ∈ foldl dedup_step [] hs)) eqn:E.
    + apply bool_decide_eq_true in E. split; [done|]. split; [|split].
      * intros e. rewrite elem_of_app, list_elem_of_singleton, Hel. split; [by left|].
        intros [? | ->]; [done|]. by apply Hel.
      * by apply sublist_inserts_r.
      * intros [_ [Hnotin _]]%NoDup_app. exfalso.
        apply (Hnotin (entry_of h)); [by apply Hel | left].
    + apply bool_decide_eq_false in E. split; [|split; [|split]].
      * apply NoDup_app. split; [done|]. split; [|apply NoDup_singleton].
        intros e He ->%list_elem_of_singleton. done.
      * intros e. rewrite !elem_of_app, Hel. done.
      * by apply sublist_app.
      * intros [Hnd' _]%NoDup_app. by rewrite (Hid Hnd').
Qed.

(** An entry of the result stands where it was first seen: the input splits at
    the first occurrence of the entry, and what precedes the entry in the
    result is the deduplication of what precedes that occurrence. *)
Lemma remove_duplicates_first_occurrence (hs : list Leveled) pre e post :
  remove_duplicates hs = pre ++ e :: post →
  ∃ hs1 h hs2,
    hs = hs1 ++ h :: hs2 ∧ entry_of h = e
    ∧ (e ∉ map entry_of hs1) ∧ remove_duplicates hs1 = pre.
Proof.
  revert pre e post. induction hs as [|h hs IH] using rev_ind; intros pre e post.
  - intros H. by destruct pre.
  - destruct (remove_duplicates_invariant hs) as (_ & Hel & _).
    unfold remove_duplicates in *. rewrite foldl_snoc, dedup_step_entry.
    destruct (bool_decide (entry_of h ∈ foldl dedup_step [] hs)) eqn:E.
    + intros H. destruct (IH _ _ _ H) as (hs1 & h' & hs2 & -> & He & Hnew & Hpre).
      exists hs1, h', (hs2 ++ [h]). by rewrite <- app_assoc.
    + apply bool_decide_eq_false in E.
      destruct post as [|x post _] using rev_ind.
      * intros H. apply app_inj_tail in H as [Hpre <-].
        exists hs, h, []. split; [done|]. split; [done|]. split; [|done].
        intros Hin. apply E. by apply Hel.
      * intros H. rewrite app_comm_cons, app_assoc in H.
        apply app_inj_tail in H as [H _].
        destruct (IH _ _ _ H) as (hs1 & h' & hs2 & -> & He & Hnew & Hpre).
        exists hs1, h', (hs2 ++ [h]). by rewrite <- app_assoc.
Qed.

(** X6.  Deduplication leaves no entry twice, loses no entry, keeps the entries
    in the order in which they were first seen, and changes nothing when the
    entries are already distinct.  The order is that of first occurrence: for
    every entry of the result, the input splits at an occurrence of the entry
    that no equal entry precedes, and the part of the result before the entry
    is the deduplication of the part of the input before that occurrence. *)
Theorem deduplication_keeps_first_occurrences :
  ∀ hs : list Leveled,
    NoDup (remove_duplicates hs)
    ∧ (∀ e, e ∈ remove_duplicates hs ↔ e ∈ map entry_of hs)
    ∧ remove_duplicates hs `sublist_of` map entry_of hs
    ∧ (NoDup (map entry_of hs) → remove_duplicates hs = map entry_of hs)
    ∧ (∀ pre e post,
         remove_duplicates hs = pre ++ e :: post →
         ∃ hs1 h hs2,
           hs = hs1 ++ h :: hs2 ∧ entry_of h = e
           ∧ (e ∉ map entry_of hs1)
           ∧ remove_duplicates hs1 = pre
           ∧ (∀ x, x ∈ pre ↔ x ∈ map entry_of hs1)).
Proof.
  intros hs. destruct (remove_duplicates_invariant hs) as (Hnd & Hel & Hsub & Hid).
  split; [done|]. split; [done|]. split; [done|]. split; [done|].
  intros pre e post H.
  destruct (remove_duplicates_first_occurrence hs pre e post H)
    as (hs1 & h & hs2 & Hhs & He & Hnew & Hpre).
  exists hs1, h, hs2. split; [done|]. split; [done|]. split; [done|].
  split; [done|]. intros x. rewrite <- Hpre. apply remove_duplicates_invariant.
Qed.

Lemma deduplication_keeps_first_occurrences_witness :
  remove_duplicates repeated_heading = [heading H1 "Methods" 1; heading H2 "Data" 1]
  ∧ ∃ hs1 h hs2,
      repeated_heading = hs1 ++ h :: hs2 ∧ entry_of h = heading H2 "Data" 1
      ∧ (heading H2 "Data" 1 ∉ map entry_of hs1)
      ∧ remove_duplicates hs1 = [heading H1 "Methods" 1]
      ∧ (∀ x, x ∈ [heading H1 "Methods" 1] ↔ x ∈ map entry_of hs1).
Proof.
  split; [vm_compute; reflexivity|].
  destruct (deduplication_keeps_first_occurrences repeated_heading)
    as (_ & _ & _ & _ & Hfirst).
  apply (Hfirst [heading H1 "Methods" 1] (heading H2 "Data" 1) []).
  vm_compute. reflexivity.
Defined.

(** ** Heading candidates *)

Section Headings.

Variable detect : str -> option string.
Variable wordninja_split : str -> list str.
Variable trivial_tokenize : option (str -> lang -> list str).

Lemma elem_of_heading_candidate junk median page_num spans i span c :
  c ∈ heading_candidate detect wordninja_split trivial_tokenize junk median
        page_num spans i span
  ↔ (span_text span ∉ junk) ∧ 2 ≤ length (span_text span)
    ∧ (size_rules median i span || introduces_list spans i) = true
    ∧ c = {| cand_text :=
               [(detect_language detect (span_text span),
                 normalize wordninja_split trivial_tokenize
                   (detect_language detect (span_text span)) (span_text span))];
             cand_page := page_num; cand_size := span_size span |}.
Proof.
  unfold heading_candidate. cbv zeta.
  destruct (bool_decide (span_text span ∈ junk)) eqn:Ej; simpl.
  - apply bool_decide_eq_true in Ej. rewrite elem_of_nil. tauto.
  - apply bool_decide_eq_false in Ej.
    destruct (length (span_text span) <? 2) eqn:El.
    + apply Nat.ltb_lt in El. rewrite elem_of_nil. split; [done | lia].
    + apply Nat.ltb_ge in El.
      destruct (size_rules median i span || introduces_list spans i).
      * rewrite list_elem_of_singleton. tauto.
      * rewrite elem_of_nil. split; [done|]. intros (_ & _ & ? & _). done.
Qed.

Lemma elem_of_detect_headings junk median num_pages
    (page_spans : gmap positive (list SpanInfo)) c :
  c ∈ detect_headings detect wordninja_split trivial_tokenize junk median num_pages
        page_spans
  ↔ ∃ n spans i span,
      1 ≤ n ≤ num_pages ∧ page_spans !! Pos.of_nat n = Some spans
      ∧ spans !! i = Some span
      ∧ (span_text span ∉ junk) ∧ 2 ≤ length (span_text span)
      ∧ (size_rules median i span || introduces_list spans i) = true
      ∧ c = {| cand_text :=
                 [(detect_language detect (span_text span),
                   normalize wordninja_split trivial_tokenize
                     (detect_language detect (span_text span)) (span_text span))];
               cand_page := Pos.of_nat n; cand_size := span_size span |}.
Proof.
  unfold detect_headings. rewrite elem_of_flat_map. cbv zeta. split.
  - intros (n & Hn & Hc). apply elem_of_seq in Hn.
    unfold page_candidates in Hc. apply elem_of_concat in Hc as (l & Hc & Hl).
    apply elem_of_lookup_imap in Hl as (i & span & -> & Hi).
    apply elem_of_heading_candidate in Hc as (Hj & Hlen & Hrule & ->).
    destruct (page_spans !! Pos.of_nat n) as [spans|] eqn:E; [|done].
    simpl in *. exists n, spans, i, span. repeat (split; [done || lia|]). done.
  - intros (n & spans & i & span & Hn & Hps & Hi & Hj & Hlen & Hrule & ->).
    exists n. split; [apply elem_of_seq; lia|]. rewrite Hps. simpl.
    unfold page_candidates. apply elem_of_concat. eexists. split.
    2: { by eapply elem_of_lookup_imap_2. }
    by apply elem_of_heading_candidate.
Qed.

End Headings.

(** ** Levels *)

Lemma distinct_subset l y : y ∈ distinct l → y ∈ l.
Proof.
  induction l as [|x l IH]; simpl; [done|].
  destruct (existsb (Qeq_bool x) l).
  - intros H. right. by apply IH.
  - intros [-> | H]%elem_of_cons; [left | right; by apply IH].
Qed.

Lemma largest_size_is_a_candidate hs s0 rest :
  distinct_sizes_desc hs = s0 :: rest → ∃ h, h ∈ hs ∧ cand_size h = s0.
Proof.
  intros Hs. assert (Hin : s0 ∈ distinct_sizes_desc hs) by (rewrite Hs; left).
  unfold distinct_sizes_desc, sorted_desc_by in Hin.
  apply (proj1 (elem_of_Permutation_proper s0 _ _ (sorted_by_perm _ _))) in Hin.
  apply distinct_subset, list_elem_of_fmap in Hin as (h & -> & Hh). eauto.
Qed.

Lemma level_of_Qeq sizes x y : (x == y)%Q → level_of sizes x = level_of sizes y.
Proof.
  intros Hxy. unfold level_of. destruct sizes as [|s0 rest]; [done|].
  assert (H : ∀ s, Qle_bool s x = Qle_bool s y).
  { intros s. destruct (Qle_bool s x) eqn:E1, (Qle_bool s y) eqn:E2; try done.
    - apply Qle_bool_iff in E1. rewrite Hxy in E1. apply Qle_bool_iff in E1. congruence.
    - apply Qle_bool_iff in E2. rewrite <- Hxy in E2. apply Qle_bool_iff in E2.
      congruence. }
  rewrite !H. destruct rest; by rewrite ?H.
Qed.

(** X7.  Level assignment changes nothing but the level; a heading of a higher
    level is strictly larger than one of a lower level; headings of equal
    size get the same level; and when no size is negative the largest
    heading is H1. *)
Theorem levels_order_headings_strictly_by_size :
  ∀ (hs : list Candidate),
    map (fun a => (lv_text a, lv_page a, lv_size a)) (assign_levels hs)
    = map (fun h => (cand_text h, cand_page h, cand_size h)) hs
    ∧ (∀ a b, a ∈ assign_levels hs → b ∈ assign_levels hs →
         (lv_level a = H1 → lv_level b ≠ H1 → (lv_size b < lv_size a)%Q)
         ∧ (lv_level a = H2 → lv_level b = H3 → (lv_size b < lv_size a)%Q)
         ∧ ((lv_size a == lv_size b)%Q → lv_level a = lv_level b))
    ∧ ((∀ h, h ∈ hs → (0 <= cand_size h)%Q) →
       ∀ a, a ∈ assign_levels hs →
            (∀ b, b ∈ assign_levels hs → (lv_size b <= lv_size a)%Q) →
            lv_level a = H1).
Proof.
  intros hs. split; [|split].
  - unfold assign_levels. rewrite map_map. done.
  - intros a b Ha Hb.
    apply elem_of_assign_levels in Ha as (ha & Hha & -> & ->).
    apply elem_of_assign_levels in Hb as (hb & Hhb & -> & ->).
    split; [|split]; [| |apply level_of_Qeq].
    + destruct (distinct_sizes_desc hs) as [|s0 rest] eqn:Hs; [discriminate|].
      pose proof (size_le_largest hs ha s0 rest Hs Hha) as Ha0.
      unfold level_of.
      destruct (Qle_bool (s0 * 0.95) (cand_size ha)) eqn:Ea.
      2: { destruct rest as [|s1 rest']; [discriminate|].
           destruct (Qle_bool (s1 * 0.95) (cand_size ha)); discriminate. }
      destruct (Qle_bool (s0 * 0.95) (cand_size hb)) eqn:Eb; [done|].
      intros _ _. qbool. lra.
    + destruct (distinct_sizes_desc hs) as [|s0 rest] eqn:Hs; [discriminate|].
      unfold level_of.
      destruct (Qle_bool (s0 * 0.95) (cand_size ha)) eqn:Ea; [discriminate|].
      destruct rest as [|s1 rest']; [discriminate|].
      destruct (Qle_bool (s1 * 0.95) (cand_size ha)) eqn:Ea1; [|discriminate].
      destruct (Qle_bool (s0 * 0.95) (cand_size hb)) eqn:Eb; [discriminate|].
      destruct (Qle_bool (s1 * 0.95) (cand_size hb)) eqn:Eb1; [discriminate|].
      intros _ _. qbool. lra.
  - intros Hpos a Ha Hmax.
    pose proof Ha as Ha'.
    apply elem_of_assign_levels in Ha' as (ha & Hha & Hsz & ->).
    destruct (distinct_sizes_desc hs) as [|s0 rest] eqn:Hs.
    + destruct (distinct_sizes_desc_covers hs ha Hha) as (y & Hy & _).
      rewrite Hs in Hy. by apply elem_of_nil in Hy.
    + destruct (largest_size_is_a_candidate hs s0 rest Hs) as (h0 & Hh0 & Hs0).
      assert (Hle : (s0 <= lv_size a)%Q).
      { rewrite <- Hs0.
        apply (Hmax {| lv_level := level_of (distinct_sizes_desc hs) (cand_size h0);
                       lv_text := cand_text h0; lv_page := cand_page h0;
                       lv_size := cand_size h0 |}).
        unfold assign_levels. apply list_elem_of_fmap. exists h0. by rewrite Hs. }
      pose proof (Hpos h0 Hh0) as H0. rewrite Hs0 in H0. rewrite Hsz in Hle.
      unfold level_of.
      destruct (Qle_bool (s0 * 0.95) (cand_size ha)) eqn:E; [done|]. qbool. lra.
Qed.

(** ** Spans by page *)

Lemma group_spans_lookup (all_text_spans : list SpanInfo) p :
  default [] (group_spans all_text_spans !! p)
  = List.filter (fun s => Pos.eqb (span_page s) p) all_text_spans.
Proof.
  unfold group_spans. induction all_text_spans as [|s l IH] using rev_ind; [done|].
  rewrite foldl_snoc, List.filter_app. simpl.
  destruct (Pos.eqb (span_page s) p) eqn:E.
  - apply Pos.eqb_eq in E as <-. rewrite lookup_insert_eq. simpl. by rewrite IH.
  - apply Pos.eqb_neq in E. rewrite lookup_insert_ne by done.
    by rewrite IH, app_nil_r.
Qed.

(** ** The outline *)

Section Outline.

Variable detect : str -> option string.
Variable wordninja_split : str -> list str.
Variable trivial_tokenize : option (str -> lang -> list str).

(** X8.  Every heading of the outline lies on a page of the document and comes
    from a collected span of that page whose text is not noise and has at
    least two characters; its text mapping has the one language detected for
    that span, with the normalised text; no heading occurs twice. *)
Theorem outline_headings_come_from_spans :
  ∀ (pdf : PdfFile) (document : Document),
    fitz_open pdf = Some document →
    let result := extract_document_info detect wordninja_split trivial_tokenize pdf in
    NoDup (outline result)
    ∧ ∀ e, e ∈ outline result →
        1 ≤ Pos.to_nat (entry_page e) ≤ length document
        ∧ ∃ span,
            span ∈ collect_spans document
            ∧ span_page span = entry_page e
            ∧ (span_text span
               ∉ detect_junk_candidates (collect_spans document) (length document))
            ∧ 2 ≤ length (span_text span)
            ∧ entry_text e
              = [(detect_language detect (span_text span),
                  normalize wordninja_split trivial_tokenize
                    (detect_language detect (span_text span)) (span_text span))].
Proof.
  intros pdf document Hopen result. unfold result, extract_document_info.
  rewrite Hopen. cbv zeta. cbn [outline]. split.
  - apply remove_duplicates_invariant.
  - intros e He. apply remove_duplicates_invariant in He.
    apply list_elem_of_fmap in He as (a & -> & Ha).
    unfold assign_levels in Ha. apply list_elem_of_fmap in Ha as (c & -> & Hc).
    apply elem_of_detect_headings in Hc
      as (n & spans & i & span & Hn & Hps & Hi & Hj & Hlen & _ & ->).
    simpl.
    assert (Hspan : span ∈ List.filter (fun s => Pos.eqb (span_page s) (Pos.of_nat n))
                                      (collect_spans document)).
    { rewrite <- group_spans_lookup, Hps. simpl. by eapply list_elem_of_lookup_2. }
    apply list_elem_of_In, filter_In in Hspan as [Hin Hp].
    apply list_elem_of_In in Hin. apply Pos.eqb_eq in Hp.
    rewrite Nat2Pos.id by lia. split; [lia|]. exists span. done.
Qed.

End Outline.

Section TitleAndTables.

Variable detect : str -> option string.
Variable wordninja_split : str -> list str.
Variable trivial_tokenize : option (str -> lang -> list str).

(** ** The title of a document *)

(** X9.  The title has at most one entry for each language; every entry is the
    normalised text of a span of page 1 that is not noise and is at least as
    large as every other such span; without such a span of size 0 or more
    the title is empty. *)
Theorem title_comes_from_largest_clean_span_of_page_1 :
  ∀ (pdf : PdfFile) (document : Document),
    fitz_open pdf = Some document →
    let result := extract_document_info detect wordninja_split trivial_tokenize pdf in
    let junk := detect_junk_candidates (collect_spans document) (length document) in
    let on_page_1 := fun s : SpanInfo =>
      s ∈ collect_spans document ∧ span_page s = 1%positive ∧ span_text s ∉ junk in
    NoDup (dict_keys (title result))
    ∧ (∀ l v, (l, v) ∈ title result →
         ∃ span, on_page_1 span
                 ∧ (∀ s, on_page_1 s → (span_size s <= span_size span)%Q)
                 ∧ detect_language detect (span_text span) = l
                 ∧ v = normalize wordninja_split trivial_tokenize l (span_text span))
    ∧ ((∀ s, on_page_1 s → (span_size s < 0)%Q) → title result = []).
Proof.
  intros pdf document Hopen result junk on_page_1.
  unfold result, extract_document_info. rewrite Hopen. cbv zeta. cbn [title].
  fold junk.
  set (page_0_spans := List.filter _ (collect_spans document)).
  assert (Hp0 : ∀ s, s ∈ page_0_spans ↔ on_page_1 s).
  { intros s. unfold page_0_spans, on_page_1.
    rewrite list_elem_of_In, filter_In, <- list_elem_of_In.
    rewrite andb_true_iff, Pos.eqb_eq, negb_true_iff, bool_decide_eq_false. tauto. }
  destruct (infer_title_spec detect wordninja_split trivial_tokenize
              (title_candidates page_0_spans)) as (Hnd & _ & Hv & Hnil).
  destruct (title_candidates_have_the_largest_size page_0_spans)
    as (_ & Hmax & _ & Hc & Hneg).
  split; [done|]. split.
  - intros l v Hlv. destruct (Hv l v Hlv) as (t & Ht & Hl & -> & _).
    rewrite Hc in Ht. apply list_elem_of_fmap in Ht as (span & -> & Hspan).
    apply list_elem_of_In, filter_In in Hspan as [Hin Heq].
    apply list_elem_of_In in Hin. apply Qeq_bool_iff in Heq.
    exists span. split; [by apply Hp0|]. split; [|done].
    intros s Hs. rewrite Heq. by apply Hmax, Hp0.
  - intros Hall. apply Hnil, Hneg. intros s Hs. by apply Hall, Hp0.
Qed.

(** ** Tables *)

Lemma elem_of_table_of i table t :
  t ∈ table_of detect wordninja_split trivial_tokenize i table →
  table_page t = i + 1
  ∧ (∃ l columns, table_headers t = [(l, columns)] ∧ columns ≠ []
                  ∧ ∀ c, c ∈ columns → strip c = c)
  ∧ ∀ row, row ∈ table_data t →
           row ∈ table ∧ ∃ c r, Some (c :: r) ∈ row.
Proof.
  unfold table_of. destruct table as [|header rows]; [by intros H%elem_of_nil|].
  destruct (1 <? length header); [|by intros H%elem_of_nil].
  cbv zeta.
  set (columns := omap _ header).
  set (l := detect_language detect (join [space] columns)).
  destruct (map (normalize wordninja_split trivial_tokenize l) columns)
    as [|c0 cs] eqn:E; [by intros H%elem_of_nil|].
  intros ->%list_elem_of_singleton. simpl. split; [done|]. split.
  - exists l, (c0 :: cs). split; [done|]. split; [done|].
    intros c Hc. rewrite <- E in Hc. apply list_elem_of_fmap in Hc as (x & -> & _).
    apply normalize_trimmed.
  - intros row Hrow. apply list_elem_of_In, filter_In in Hrow as [Hin Hany].
    split; [right; by apply list_elem_of_In|].
    apply existsb_exists in Hany as ([[|c r]|] & Hcell & Hne); try done.
    exists c, r. by apply list_elem_of_In.
Qed.

Lemma elem_of_tables_from pages : ∀ i t,
  t ∈ tables_from detect wordninja_split trivial_tokenize i pages →
  ∃ k page_tables table,
    pages !! k = Some (Some page_tables) ∧ table ∈ page_tables
    ∧ (∀ j, j < k → pages !! j ≠ Some None)
    ∧ t ∈ table_of detect wordninja_split trivial_tokenize (i + k) table.
Proof.
  induction pages as [|[page_tables|] rest IH]; intros i t; simpl.
  - by intros H%elem_of_nil.
  - intros [Ht | Ht]%elem_of_app.
    + apply elem_of_flat_map in Ht as (table & Htable & Ht).
      exists 0, page_tables, table. rewrite Nat.add_0_r.
      split; [done|]. split; [done|]. split; [lia | done].
    + destruct (IH (S i) t Ht) as (k & pt & table & Hk & Htable & Hbefore & Ht').
      exists (S k), pt, table. split; [done|]. split; [done|]. split.
      * intros [|j] Hj; [done|]. simpl. apply Hbefore. lia.
      * by replace (i + S k) with (S i + k) by lia.
  - by intros H%elem_of_nil.
Qed.

(** X10.  When pdfplumber cannot open the file there are no tables.  Otherwise
    every table comes from a page before the first page on which extraction
    fails, carries that page's number, has one header language with at
    least one trimmed column name, and keeps only rows that have a non-empty
    cell. *)
Theorem tables_are_well_formed :
  ∀ pdf : PdfFile,
    (plumber_open pdf = None →
     extract_tables detect wordninja_split trivial_tokenize pdf = [])
    ∧ ∀ t, t ∈ extract_tables detect wordninja_split trivial_tokenize pdf →
        ∃ pages page_tables table,
          plumber_open pdf = Some pages
          ∧ pages !! (table_page t - 1) = Some (Some page_tables)
          ∧ table ∈ page_tables
          ∧ 1 ≤ table_page t ≤ length pages
          ∧ (∀ j, j < table_page t - 1 → pages !! j ≠ Some None)
          ∧ (∃ l columns, table_headers t = [(l, columns)] ∧ columns ≠ []
                          ∧ ∀ c, c ∈ columns → strip c = c)
          ∧ ∀ row, row ∈ table_data t →
                   row ∈ table ∧ ∃ c r, Some (c :: r) ∈ row.
Proof.
  intros pdf. unfold extract_tables. split; [by intros ->|].
  intros t Ht. destruct (plumber_open pdf) as [pages|]; [|by apply elem_of_nil in Ht].
  apply elem_of_tables_from in Ht as (k & pt & table & Hk & Htable & Hbefore & Ht).
  apply elem_of_table_of in Ht as (Hpage & Hhead & Hrows). simpl in Hpage.
  pose proof (lookup_lt_Some _ _ _ Hk) as Hlt.
  exists pages, pt, table. rewrite Hpage.
  replace (k + 1 - 1) with k by lia. repeat (split; [done || lia|]). done.
Qed.

End TitleAndTables.

Section RankerExtras.

Variable detect : str -> option string.
Variable wordninja_split : str -> list str.
Variable trivial_tokenize : option (str -> lang -> list str).

(** ** Page text *)

(** X11.  The text returned for a page is empty or has a Devanagari character
    whenever its language is hi or mr; text that passes this test as
    extracted is returned unchanged with its detected language. *)
Theorem page_text_is_valid_or_empty :
  ∀ (pdf : PdfFile) (page_num : nat) (page : Page),
    let r := extract_page_text detect pdf page_num page in
    (r.1 = [] ∨ text_has_invalid_characters r.1 r.2 = false)
    ∧ (text_has_invalid_characters (get_text page)
         (detect_language detect (get_text page)) = false →
       r = (get_text page, detect_language detect (get_text page)))
    ∧ (r.1 ≠ [] → r.1 = get_text page ∨ plumber_text pdf page_num = Some r.1).
Proof.
  intros pdf page_num page. cbv zeta. unfold extract_page_text.
  destruct (text_has_invalid_characters (get_text page)
              (detect_language detect (get_text page))) eqn:E1.
  - destruct (plumber_text pdf page_num) as [t|] eqn:Ep.
    + destruct (text_has_invalid_characters t (detect_language detect t)) eqn:E2;
        simpl.
      * split; [by left|]. split; done.
      * split; [by right|]. split; [done|]. intros _. by right.
    + destruct (text_has_invalid_characters [] _) eqn:E2; simpl;
        (split; [by left|]); split; done.
  - rewrite E1. simpl. split; [by right|]. split; [done|]. intros _. by left.
Qed.

(** ** The excerpt loop, continued *)

Lemma excerpts_fold_titles page_text (d : dict lang str) :
  ∀ st : dict lang str * dict lang str,
  let r := foldl (lang_step detect page_text) st d in
  (NoDup (dict_keys st.1) → NoDup (dict_keys r.1))
  ∧ (NoDup (dict_keys st.2) → NoDup (dict_keys r.2))
  ∧ (∀ l t, (l, t) ∈ r.1 →
       (l, t) ∈ st.1
       ∨ ((l, t) ∈ d ∧ yields_excerpt detect page_text l t = true)).
Proof.
  induction d as [|[l0 t0] d IH]; intros st; cbv zeta; cbn [foldl].
  - split; [done|]. split; [done|]. intros l t H. by left.
  - rewrite lang_step_spec.
    destruct (IH (if yields_excerpt detect page_text l0 t0
                  then (dict_set l0 t0 st.1,
                        dict_set l0 (excerpt page_text t0) st.2)
                  else st)) as (IH1 & IH2 & IHv).
    destruct (yields_excerpt detect page_text l0 t0) eqn:E; simpl in *.
    + split; [|split].
      * intros H. by apply IH1, dict_set_keys_NoDup.
      * intros H. by apply IH2, dict_set_keys_NoDup.
      * intros l t H. destruct (IHv l t H) as [H' | [H1 H2]].
        -- apply dict_set_elem in H' as [[-> ->] | H']; [|by left].
           right. split; [left | done].
        -- right. split; [by right | done].
    + split; [done|]. split; [done|].
      intros l t H. destruct (IHv l t H) as [H' | [H1 H2]]; [by left|].
      right. split; [by right | done].
Qed.

(** ** Sections *)

(** X12.  Every section of the list has, in both mappings, at most one entry for
    each language; its titles are titles of the heading; its excerpts are
    non-empty, trimmed and at most 200 characters long. *)
Theorem sections_are_well_formed :
  ∀ (enable : bool) (kws : list str) (pdfs : list PdfFile) (secs : list Section_)
    (s : Section_),
    all_sections_of detect wordninja_split trivial_tokenize enable kws pdfs
    = Some secs →
    s ∈ secs →
    NoDup (dict_keys (section_title s))
    ∧ NoDup (dict_keys (refined_text s))
    ∧ (∀ l para, (l, para) ∈ refined_text s →
         para ≠ [] ∧ length para ≤ 200 ∧ strip para = para)
    ∧ ∃ pdf entry,
        pdf ∈ pdfs ∧ document s = file_name pdf
        ∧ entry ∈ outline (extract_document_info detect wordninja_split
                             trivial_tokenize pdf)
        ∧ page_number s = entry_page entry
        ∧ ∀ l t, (l, t) ∈ section_title s → (l, t) ∈ entry_text entry.
Proof.
  intros enable kws pdfs. induction pdfs as [|pdf rest IH]; intros secs s; simpl.
  - intros [= <-] Hs. by apply elem_of_nil in Hs.
  - destruct (document_sections _ _ _ _ _ pdf) as [here|] eqn:Ehere; [|discriminate].
    destruct (all_sections_of _ _ _ _ _ rest) as [later|] eqn:Elater; [|discriminate].
    intros [= <-] [Hs | Hs]%elem_of_app.
    2: { destruct (IH later s eq_refl Hs) as (H1 & H2 & H3 & pdf' & e & Hin & H4).
         repeat (split; [done|]). exists pdf', e. split; [by right | done]. }
    unfold document_sections in Ehere.
    destruct (fitz_open pdf) as [doc|]; [|discriminate].
    injection Ehere as <-.
    apply elem_of_flat_map in Hs as (entry & Hentry & Hs).
    apply elem_of_entry_sections in Hs as (-> & Hne & _). cbn [section_title
      refined_text document page_number excerpts_for].
    set (page_text := page_text_of _ (entry_page entry)).
    destruct (excerpts_fold_titles page_text (entry_text entry) ([], []))
      as (Hn1 & Hn2 & Ht). cbv zeta in Hn1, Hn2, Ht.
    split; [apply Hn1, NoDup_nil_2|]. split; [apply Hn2, NoDup_nil_2|]. split.
    + intros l para Hpara.
      apply (excerpts_for_dict_values detect page_text (entry_text entry)) in Hpara
        as (t & _ & Hy & ->).
      apply yields_excerpt_spec in Hy as (_ & _ & Hne').
      split; [done|]. split; [apply excerpt_length|].
      unfold excerpt. apply strip_idempotent.
    + exists pdf, entry. split; [left|]. repeat (split; [done|]).
      intros l t Hlt. destruct (Ht l t Hlt) as [H | [H _]]; [|done].
      by apply elem_of_nil in H.
Qed.

(** ** The keyword gate only removes sections *)

Lemma entry_sections_gate_sublist kws kws' doc page_texts page_num tv :
  entry_sections detect true kws doc page_texts page_num tv
  `sublist_of` entry_sections detect false kws' doc page_texts page_num tv.
Proof.
  unfold entry_sections. destruct (excerpts_for _ _ _) as [t r]. simpl.
  destruct (is_relevant_section _ kws); simpl; [done | apply sublist_nil_l].
Qed.

Lemma flat_map_sublist {A B} (f g : A -> list B) (l : list A) :
  (∀ x, f x `sublist_of` g x) → flat_map f l `sublist_of` flat_map g l.
Proof.
  intros H. induction l as [|x l IH]; simpl; [done|]. by apply sublist_app.
Qed.

(** X13.  Whether the run reaches the ranking does not depend on the gate or the
    keywords; the gated list is the ungated list with sections left out, in
    the same order; with no keyword at all the gate leaves nothing. *)
Theorem keyword_gate_only_removes_sections :
  ∀ (kws kws' : list str) (pdfs : list PdfFile),
    match all_sections_of detect wordninja_split trivial_tokenize true kws pdfs,
          all_sections_of detect wordninja_split trivial_tokenize false kws' pdfs with
    | Some gated, Some ungated => gated `sublist_of` ungated ∧ (kws = [] → gated = [])
    | None, None => True
    | _, _ => False
    end.
Proof.
  intros kws kws' pdfs. induction pdfs as [|pdf rest IH]; simpl; [done|].
  unfold document_sections. destruct (fitz_open pdf) as [doc|]; [|done].
  destruct (all_sections_of _ _ _ true kws rest) as [g|],
           (all_sections_of _ _ _ false kws' rest) as [u|]; try done.
  destruct IH as [Hsub Hnil]. split.
  - apply sublist_app; [|done]. apply flat_map_sublist. intros entry.
    apply entry_sections_gate_sublist.
  - intros ->. rewrite (Hnil eq_refl), app_nil_r.
    induction (outline _) as [|entry es IHes]; simpl; [done|].
    rewrite IHes, app_nil_r. unfold entry_sections.
    by destruct (excerpts_for _ _ _).
Qed.

(** ** Pages beyond the document *)

(** X14.  A heading whose page has no text, because the page number lies beyond
    the pages of the document or the page text is empty, yields no section. *)
Theorem heading_without_page_text_is_dropped :
  ∀ (enable : bool) (kws : list str) (doc : str) (page_texts : list str)
    (page_num : positive) (tv : TitleValue),
    (length page_texts < Pos.to_nat page_num
     ∨ page_texts !! (Pos.to_nat page_num - 1) = Some []) →
    entry_sections detect enable kws doc page_texts page_num tv = [].
Proof.
  intros enable kws doc page_texts page_num tv Hpage.
  assert (Hempty : page_text_of page_texts page_num = []).
  { unfold page_text_of. destruct Hpage as [Hlt | ->]; [|done].
    rewrite lookup_ge_None_2; [done | lia]. }
  unfold entry_sections. rewrite Hempty.
  assert (Hex : excerpts_for detect [] tv = ([], [])).
  { destruct tv as [d|t]; [|done]. simpl.
    induction d as [|[l t] d IH]; [done|]. simpl. exact IH. }
  rewrite Hex. simpl. by destruct (enable && _).
Qed.

(** ** Runs *)

Variable encode : str -> list Q.
Variable now : str.

Lemma all_sections_of_None enable kws pdfs :
  all_sections_of detect wordninja_split trivial_tokenize enable kws pdfs = None
  ↔ ∃ pdf, pdf ∈ pdfs ∧ fitz_open pdf = None.
Proof.
  induction pdfs as [|pdf rest IH]; simpl.
  - split; [discriminate | by intros (pdf & H%elem_of_nil & _)].
  - unfold document_sections. destruct (fitz_open pdf) as [doc|] eqn:E.
    + destruct (all_sections_of _ _ _ _ _ rest) as [later|].
      * split; [discriminate|]. intros (pdf' & [-> | Hin]%elem_of_cons & Hnone).
        -- congruence.
        -- destruct IH as [_ IH]. discriminate IH. eauto.
      * split; [|done]. intros _. destruct IH as [IH _].
        destruct (IH eq_refl) as (pdf' & Hin & Hnone). exists pdf'.
        split; [by right | done].
    + split; [|done]. intros _. exists pdf. split; [left | done].
Qed.

(** X15.  A document that cannot be opened stops the whole ranking run,
    wherever it stands among the documents and whatever the others hold,
    although outline extraction alone gives such a document the empty
    outline.  A run that completes has opened every document, lists every
    input document and has one output entry for each retained section. *)
Theorem unreadable_document_stops_the_ranking_run :
  ∀ (enable : bool) (kws : list str) (pdfs : list PdfFile)
    (persona_txt job_txt : option str),
    let run := run_r1b detect wordninja_split trivial_tokenize encode now enable kws
                       pdfs persona_txt job_txt in
    (∀ pdf, pdf ∈ pdfs → fitz_open pdf = None →
       outline (extract_document_info detect wordninja_split trivial_tokenize pdf) = []
       ∧ run = None)
    ∧ ∀ result, run = Some result →
        Forall (fun pdf => is_Some (fitz_open pdf)) pdfs
        ∧ input_documents (metadata result) = map file_name pdfs
        ∧ ∃ secs,
            all_sections_of detect wordninja_split trivial_tokenize enable kws pdfs
            = Some secs
            ∧ length (extracted_sections result) = length secs
            ∧ length (sub_section_analysis result) = length secs.
Proof.
  intros enable kws pdfs persona_txt job_txt run. unfold run. split.
  - intros pdf Hin Hnone. split.
    + unfold extract_document_info. by rewrite Hnone.
    + unfold run_r1b.
      destruct (all_sections_of _ _ _ _ _ pdfs) as [secs|] eqn:E; [|done].
      assert (Hno : all_sections_of detect wordninja_split trivial_tokenize
                      enable kws pdfs = None) by (apply all_sections_of_None; eauto).
      congruence.
  - intros result Hrun. unfold run_r1b in Hrun.
    destruct (all_sections_of _ _ _ _ _ pdfs) as [secs|] eqn:E; [|discriminate].
    injection Hrun as <-. simpl. split; [|split; [done|]].
    + apply Forall_forall. intros pdf Hin.
      destruct (fitz_open pdf) as [doc|] eqn:Hopen; [by eexists|].
      assert (Hno : all_sections_of detect wordninja_split trivial_tokenize
                      enable kws pdfs = None) by (apply all_sections_of_None; eauto).
      congruence.
    + exists secs. split; [done|].
      unfold output_sections, sub_sections, rank_sections, sorted_desc_by, score_sections.
      rewrite length_imap, length_map.
      rewrite (Permutation_length (sorted_by_perm _ _)), length_map. done.
Qed.

End RankerExtras.

(** ** Properties of the simplified ranker *)

Lemma matches_zero text_lower kws :
  Simple.matches text_lower kws = 0
  ↔ ∀ kw, kw ∈ kws → contains (lower kw) text_lower = false.
Proof.
  unfold Simple.matches. induction kws as [|k kws IH]; simpl.
  - split; [by intros _ kw H%elem_of_nil | done].
  - destruct (contains (lower k) text_lower) eqn:E; simpl.
    + split; [discriminate|]. intros H. specialize (H k ltac:(left)). congruence.
    + rewrite IH. split.
      * intros H kw [-> | Hin]%elem_of_cons; [done | by apply H].
      * intros H kw Hin. apply H. by right.
Qed.

Lemma matches_le text_lower kws : Simple.matches text_lower kws ≤ length kws.
Proof.
  unfold Simple.matches. induction kws as [|k kws IH]; simpl; [done|].
  destruct (contains (lower k) text_lower); simpl; lia.
Qed.

Lemma Qdiv_nat_bounds (n d : nat) :
  (0 <= inject_Z (Z.of_nat n) / inject_Z (Z.of_nat (d + 1)))%Q
  ∧ (inject_Z (Z.of_nat n) / inject_Z (Z.of_nat (d + 1)) <= inject_Z (Z.of_nat n))%Q
  ∧ ((inject_Z (Z.of_nat n) / inject_Z (Z.of_nat (d + 1)) == 0)%Q ↔ n = 0).
Proof.
  assert (Hd : (1 <= inject_Z (Z.of_nat (d + 1)))%Q).
  { change 1%Q with (inject_Z 1). rewrite <- Zle_Qle. lia. }
  assert (Hn : (0 <= inject_Z (Z.of_nat n))%Q).
  { change 0%Q with (inject_Z 0). rewrite <- Zle_Qle. lia. }
  set (a := inject_Z (Z.of_nat n)) in *. set (b := inject_Z (Z.of_nat (d + 1))) in *.
  assert (Hb : ¬ (b == 0)%Q) by (intros Hb; rewrite Hb in Hd; lra).
  assert (Hab : (a / b * b == a)%Q) by (field; done).
  assert (H0 : (0 <= a / b)%Q).
  { apply Qle_shift_div_l; lra. }
  split; [done|]. split.
  - apply Qle_shift_div_r; [lra|]. nra.
  - split.
    + intros Hz. rewrite Hz in Hab. assert (Ha : (a == 0)%Q) by lra.
      unfold a in Ha. change 0%Q with (inject_Z 0) in Ha.
      apply (proj1 (inject_Z_injective _ _)) in Ha. lia.
    + intros ->. unfold a. simpl. unfold Qdiv. apply Qmult_0_l.
Qed.

(** X16.  The score of the simplified ranker is never negative, is at most the
    number of persona keywords plus twice the number of job keywords, and is
    zero exactly when no keyword, lower-cased, occurs in the lower-cased
    text. *)
Theorem simple_score_bounds :
  ∀ (text : str) (persona_keywords job_keywords : list str),
    let score := Simple.calculate_simple_relevance_score text persona_keywords
                   job_keywords in
    (0 <= score)%Q
    ∧ (score <= inject_Z (Z.of_nat (length persona_keywords + 2 * length job_keywords)))%Q
    ∧ ((score == 0)%Q
       ↔ ∀ kw, kw ∈ persona_keywords ++ job_keywords →
               contains (lower kw) (lower text) = false).
Proof.
  intros text pk jk. cbv zeta. unfold Simple.calculate_simple_relevance_score.
  set (n := Simple.matches (lower text) pk + 2 * Simple.matches (lower text) jk).
  pose proof (matches_le (lower text) pk) as Hp.
  pose proof (matches_le (lower text) jk) as Hj.
  assert (Hzero : n = 0 ↔ ∀ kw, kw ∈ pk ++ jk → contains (lower kw) (lower text) = false).
  { unfold n. split.
    - intros Hn kw [H | H]%elem_of_app.
      + apply (proj1 (matches_zero (lower text) pk)); [lia | done].
      + apply (proj1 (matches_zero (lower text) jk)); [lia | done].
    - intros H.
      assert (Simple.matches (lower text) pk = 0) as ->.
      { apply matches_zero. intros kw Hkw. apply H, elem_of_app. by left. }
      assert (Simple.matches (lower text) jk = 0) as ->; [|done].
      apply matches_zero. intros kw Hkw. apply H, elem_of_app. by right. }
  assert (Hbound : (inject_Z (Z.of_nat n)
                    <= inject_Z (Z.of_nat (length pk + 2 * length jk)))%Q).
  { rewrite <- Zle_Qle. lia. }
  destruct text as [|c r].
  - split; [|split; [done|]].
    + change 0%Q with (inject_Z 0). rewrite <- Zle_Qle. lia.
    + rewrite <- Hzero. change 0%Q with (inject_Z 0). split.
      * intros H. apply (proj1 (inject_Z_injective _ _)) in H. lia.
      * by intros ->.
  - destruct (Qdiv_nat_bounds n (length (split (c :: r)))) as (H0 & Hle & Hz).
    split; [done|]. split; [lra|]. by rewrite Hz.
Qed.

Section SimpleRanker.

Variable detect : str -> option string.
Variable wordninja_split : str -> list str.
Variable trivial_tokenize : option (str -> lang -> list str).

(** X17.  The page text of the full ranker is that of the simplified ranker, made
    empty when it fails the Devanagari test for its language. *)
Theorem full_page_text_is_simple_page_text_checked :
  ∀ (pdf : PdfFile) (page_num : nat) (page : Page),
    extract_page_text detect pdf page_num page
    = let r := Simple.extract_page_text detect pdf page_num page in
      (if text_has_invalid_characters r.1 r.2 then [] else r.1, r.2).
Proof.
  intros pdf page_num page.
  unfold extract_page_text, Simple.extract_page_text. cbv zeta.
  destruct (text_has_invalid_characters (get_text page) _);
    [destruct (plumber_text pdf page_num)|]; done.
Qed.

Lemma document_sections_simple enable kws pdf :
  (∀ doc page, fitz_open pdf = Some doc → page ∈ doc →
     text_has_invalid_characters (get_text page)
       (detect_language detect (get_text page)) = false) →
  Simple.document_sections detect wordninja_split trivial_tokenize enable kws pdf
  = document_sections detect wordninja_split trivial_tokenize enable kws pdf.
Proof.
  intros Hvalid. unfold Simple.document_sections, document_sections.
  destruct (fitz_open pdf) as [doc|] eqn:E; [|done]. cbv zeta. f_equal.
  assert (Htexts : imap (fun i page => (Simple.extract_page_text detect pdf i page).1) doc
                   = imap (fun i page => (extract_page_text detect pdf i page).1) doc).
  { apply imap_ext. intros i page Hi. simpl.
    unfold Simple.extract_page_text, extract_page_text. cbv zeta.
    assert (Hv := Hvalid doc page eq_refl ltac:(by eapply list_elem_of_lookup_2)).
    rewrite Hv. simpl. by rewrite Hv. }
  by rewrite Htexts.
Qed.

(** X18.  The two rankers extract the same page text from a page whose text
    passes the Devanagari test, and then retain the same sections. *)
Theorem simple_ranker_agrees_without_fallback :
  ∀ (enable : bool) (kws : list str) (pdfs : list PdfFile),
    (∀ pdf doc page, pdf ∈ pdfs → fitz_open pdf = Some doc → page ∈ doc →
       text_has_invalid_characters (get_text page)
         (detect_language detect (get_text page)) = false) →
    Simple.all_sections_of detect wordninja_split trivial_tokenize enable kws pdfs
    = all_sections_of detect wordninja_split trivial_tokenize enable kws pdfs.
Proof.
  intros enable kws pdfs. induction pdfs as [|pdf rest IH]; intros Hvalid; [done|].
  simpl. rewrite IH.
  2: { intros pdf' doc page Hin. apply Hvalid. by right. }
  rewrite document_sections_simple; [done|].
  intros doc page. apply Hvalid. left.
Qed.

End SimpleRanker.

(** ** A string on every page *)

(** X19.  In a document of 2 to 100000 pages a string of 1 to 79 characters that
    occurs on as many pages as the document has is noise. *)
Theorem string_on_every_page_is_noise :
  ∀ (spans : list SpanInfo) (num_pages : nat) (t : str),
    2 ≤ num_pages → (Z.of_nat num_pages ≤ 100000)%Z →
    pages_containing t spans = num_pages → 0 < length t < 80 →
    t ∈ detect_junk_candidates spans num_pages.
Proof.
  intros spans num_pages t H2 Hmax Hall Hlen.
  apply detect_junk_candidates_spec. split; [|done].
  unfold threshold. rewrite int_mul_0_6_floor by done. rewrite Hall.
  pose proof (Nat.Div0.div_le_upper_bound (num_pages * 6) 10 num_pages). lia.
Qed.

Lemma string_on_every_page_is_noise_witness :
  lit "Header" ∈ detect_junk_candidates two_pages_with_header 2.
Proof.
  apply string_on_every_page_is_noise.
  - lia.
  - vm_compute. discriminate.
  - vm_compute. reflexivity.
  - vm_compute. lia.
Defined.

(** ** Keyword matching *)

Lemma lower_char_not_upper c : is_ascii_upper (lower_char c) = false.
Proof.
  unfold lower_char. destruct (is_ascii_upper c) eqn:E; [|done].
  unfold is_ascii_upper in *. apply andb_prop in E as [H1 H2].
  apply N.leb_le in H1, H2. apply andb_false_iff. right. apply N.leb_gt. lia.
Qed.

Lemma lower_idempotent s : lower (lower s) = lower s.
Proof.
  unfold lower. rewrite map_map. apply map_ext. intros c.
  unfold lower_char at 1. by rewrite lower_char_not_upper.
Qed.

Lemma contains_chars sub s c : contains sub s = true → c ∈ sub → c ∈ s.
Proof.
  unfold contains. destruct (find sub s) as [i|] eqn:E; [|discriminate].
  intros _ Hc. apply find_Some in E as [Hat _].
  apply starts_with_spec in Hat as [r Hr].
  rewrite <- (take_drop i s), Hr. apply elem_of_app. right.
  apply elem_of_app. by left.
Qed.

(** X20.  The keyword test ignores the case of the text but not of the keywords: a
    keyword with an upper-case ASCII letter never matches.  No keyword means
    no match, and the empty keyword matches every text. *)
Theorem keyword_test_is_case_insensitive_in_the_text_only :
  ∀ (text : str) (kws : list str),
    is_relevant_section (lower text) kws = is_relevant_section text kws
    ∧ ((∀ kw, kw ∈ kws → existsb is_ascii_upper kw = true) →
       is_relevant_section text kws = false)
    ∧ is_relevant_section text [] = false
    ∧ ([] ∈ kws → is_relevant_section text kws = true).
Proof.
  intros text kws. split; [|split; [|split]].
  - unfold is_relevant_section. by rewrite lower_idempotent.
  - intros Hupper. destruct (is_relevant_section text kws) eqn:E; [|done].
    apply is_relevant_section_spec in E as (kw & Hkw & Hin).
    specialize (Hupper kw Hkw). apply existsb_exists in Hupper as (c & Hc & Hup).
    apply list_elem_of_In in Hc. pose proof (contains_chars _ _ c Hin Hc) as Hc'.
    unfold lower in Hc'. apply list_elem_of_fmap in Hc' as (c' & -> & _).
    by rewrite lower_char_not_upper in Hup.
  - done.
  - intros Hin. apply is_relevant_section_spec. exists []. split; [done|].
    unfold contains. by destruct (lower text).
Qed.

Lemma keyword_test_is_case_insensitive_in_the_text_only_witness :
  is_relevant_section (lit "Graph networks") [lit "GNN"; lit "Graph"] = false.
Proof.
  apply (proj1 (proj2 (keyword_test_is_case_insensitive_in_the_text_only
                         (lit "Graph networks") [lit "GNN"; lit "Graph"]))).
  intros kw [-> | [-> | H%elem_of_nil]%elem_of_cons]%elem_of_cons;
    [vm_compute; reflexivity | vm_compute; reflexivity | done].
Defined.

(** ** Instances on the scenarios *)

Lemma outline_headings_come_from_spans_witness :
  NoDup (outline (extract_document_info always_en one_word None scenario1)).
Proof.
  apply (outline_headings_come_from_spans always_en one_word None scenario1
           scenario1_doc eq_refl).
Defined.

Lemma title_comes_from_largest_clean_span_of_page_1_witness :
  NoDup (dict_keys (title (extract_document_info always_en one_word None scenario1))).
Proof.
  apply (title_comes_from_largest_clean_span_of_page_1 always_en one_word None
           scenario1 scenario1_doc eq_refl).
Defined.

Lemma sections_are_well_formed_witness :
  match gated_sections with
  | Some (s :: _) => NoDup (dict_keys (refined_text s))
  | _ => False
  end.
Proof.
  destruct gated_sections as [[|s secs]|] eqn:E;
    [vm_compute in E; discriminate | | vm_compute in E; discriminate].
  apply (sections_are_well_formed always_en one_word None true [lit "drug"]
           [drug_pdf; summary_pdf] (s :: secs) s E).
  left.
Defined.

Lemma heading_without_page_text_is_dropped_witness :
  entry_sections always_en false keywords (lit "a.pdf") [lit "Only page"] 2
                 (TitleDict [(en, lit "Only")]) = [].
Proof.
  apply heading_without_page_text_is_dropped. left. simpl. lia.
Defined.

Lemma unreadable_document_stops_the_ranking_run_witness :
  outline (extract_document_info always_en one_word None unreadable) = []
  ∧ run_with_unreadable = None.
Proof.
  apply (unreadable_document_stops_the_ranking_run always_en one_word None
           encode_length (lit "2026-01-01T00:00:00") false keywords
           [drug_pdf; unreadable; summary_pdf] None None);
    [right; left | reflexivity].
Defined.

Lemma simple_ranker_agrees_without_fallback_witness :
  Simple.all_sections_of always_en one_word None false keywords [drug_pdf; summary_pdf]
  = all_sections_of always_en one_word None false keywords [drug_pdf; summary_pdf].
Proof.
  apply simple_ranker_agrees_without_fallback. intros pdf doc page _ _ _. reflexivity.
Defined.
